(** * Translate page (src/App.tsx): history cache, API adapter, session controller

    A shallow embedding of the logic of the [Translate] component and of
    [translateWithGemini], and the properties of its specification.

    Strings are [string]: the text of a JavaScript string in an encoding
    that keeps ASCII characters as single characters (UTF-8).  The string
    primitives of the runtime that the code calls ([toLowerCase], [trim],
    [length], the print of a number) are not code of this repository: the
    embedding takes them from a [Runtime], and every general statement
    holds for every runtime.  The examples are evaluated with the runtime
    [ascii_runtime], which is the ECMAScript one on ASCII text. *)

From Stdlib Require Import ZArith Ascii String.
From stdpp Require Import base decidable option list strings pretty gmap.

Local Open Scope string_scope.
Local Open Scope Z_scope.
Local Open Scope list_scope.

(** ** JavaScript string primitives *)

Module JSString.

Definition LF : string := String (ascii_of_nat 10) EmptyString.

(** [c.toLowerCase()] for one character: ['A'..'Z'] is shifted to
    ['a'..'z'], every other character is left as it is. *)
Definition lower_ascii (c : ascii) : ascii :=
  let n := nat_of_ascii c in
  if ((65 <=? n)%nat && (n <=? 90)%nat)%bool then ascii_of_nat (n + 32) else c.

Fixpoint ascii_toLowerCase (s : string) : string :=
  match s with
  | EmptyString => EmptyString
  | String c s' => String (lower_ascii c) (ascii_toLowerCase s')
  end.

(** The ASCII white space and line terminators:
    TAB, LF, VT, FF, CR and SPACE. *)
Definition isWhiteSpace (c : ascii) : bool :=
  let n := nat_of_ascii c in
  ((9 <=? n)%nat && (n <=? 13)%nat)%bool || (n =? 32)%nat.

Fixpoint trimStart (s : string) : string :=
  match s with
  | EmptyString => EmptyString
  | String c s' => if isWhiteSpace c then trimStart s' else s
  end.

(** [trimEnd] keeps a character when something other than white space
    follows it, or when it is not white space itself. *)
Fixpoint trimEnd (s : string) : string :=
  match s with
  | EmptyString => EmptyString
  | String c s' =>
      match trimEnd s' with
      | EmptyString => if isWhiteSpace c then EmptyString else String c EmptyString
      | r => String c r
      end
  end.

Definition ascii_trim (s : string) : string := trimEnd (trimStart s).

(** JavaScript truthiness of a string: only the empty string is falsy. *)
Definition truthy (s : string) : bool :=
  match s with EmptyString => false | _ => true end.

(** [a || b] on strings. *)
Definition or_else (a b : string) : string := if truthy a then a else b.

End JSString.
Import JSString.

(** ** White space at the ends of a string *)

Module Ends.

Definition first_char (s : string) : option ascii :=
  match s with EmptyString => None | String c _ => Some c end.

Fixpoint last_char (s : string) : option ascii :=
  match s with
  | EmptyString => None
  | String c EmptyString => Some c
  | String _ s' => last_char s'
  end.

(** Neither the first nor the last character is white space. *)
Definition clean_ends (s : string) : Prop :=
  (∀ c, first_char s = Some c → isWhiteSpace c = false) ∧
  (∀ c, last_char s = Some c → isWhiteSpace c = false).

End Ends.

(** ** The runtime *)

(** What the code uses of the JavaScript runtime on strings and numbers:
    [String.prototype.toLowerCase], [String.prototype.trim], the [length]
    of a string (in UTF-16 code units) and the print of a number in a
    template literal.  Of [trim] two facts are kept: it changes nothing in
    what it returns, and what it returns has no white space at either
    end. *)
Class Runtime := {
  toLowerCase : string → string;
  trim : string → string;
  text_length : string → nat;
  number_to_string : Z → string;
  trim_idempotent : ∀ s, trim (trim s) = trim s;
  trim_clean_ends : ∀ s, Ends.clean_ends (trim s)
}.

(** The runtime on ASCII text: letters [A]..[Z] are folded, the six ASCII
    white-space characters are trimmed, a character counts for one and an
    integer is printed in decimal. *)
#[global, refine] Instance ascii_runtime : Runtime := {|
  toLowerCase := ascii_toLowerCase;
  trim := ascii_trim;
  text_length := String.length;
  number_to_string := pretty
|}.
Proof.
  - intros s. unfold ascii_trim.
    assert (∀ t, trimEnd (trimEnd t) = trimEnd t) as Hidem.
    { induction t as [|d t IHt]; simpl; [done|].
      destruct (trimEnd t) as [|e r] eqn:Hr.
      - destruct (isWhiteSpace d) eqn:Hd; simpl; [done|]. by rewrite Hd.
      - simpl in IHt |- *. by rewrite IHt. }
    assert (∀ t, trimStart (trimEnd (trimStart t)) = trimEnd (trimStart t)) as Hstart.
    { induction t as [|d t IHt]; simpl; [done|].
      destruct (isWhiteSpace d) eqn:Hd; [done|]. simpl.
      destruct (trimEnd t); simpl; rewrite ?Hd; simpl; by rewrite ?Hd. }
    by rewrite Hstart, Hidem.
  - intros s. unfold ascii_trim. split; intros c.
    + induction s as [|d s IHs]; simpl; [done|].
      destruct (isWhiteSpace d) eqn:Hd; [done|]. simpl.
      destruct (trimEnd s); simpl; rewrite ?Hd; by intros [= <-].
    + generalize (trimStart s). intros t.
      induction t as [|d t IHt]; simpl; [done|].
      destruct (trimEnd t) as [|e r] eqn:Hr.
      * destruct (isWhiteSpace d) eqn:Hd; simpl; [done|]. by intros [= <-].
      * exact IHt.
Defined.

(** ** Data model *)

(** [interface Language] *)
Record Language := mkLanguage { code : string; name : string; flag : string }.

(** [interface Translation]; [timestamp] is the value of [Date.now()]. *)
Record Translation := mkTranslation {
  source : string;
  target : string;
  from : string;
  to : string;
  timestamp : Z
}.

#[global] Instance Translation_eq_dec : EqDecision Translation.
Proof. solve_decision. Defined.

(** ** History cache: the updater passed to [setRecentTranslations] *)

Module History.

(** The predicate both [prev.some] and [prev.filter] test: the four
    comparisons of the arrow function, in the order of the source. *)
Definition sameTranslation `{!Runtime} (newTranslation translation : Translation) : Prop :=
  toLowerCase (source translation) = toLowerCase (source newTranslation) ∧
  toLowerCase (target translation) = toLowerCase (target newTranslation) ∧
  from translation = from newTranslation ∧
  to translation = to newTranslation.

#[global] Instance sameTranslation_dec `{!Runtime} n t : Decision (sameTranslation n t).
Proof. unfold sameTranslation. apply _. Defined.

(** The template literal
    [`${translation.source}-${translation.target}-${translation.from}-${translation.to}`]. *)
Definition key (translation : Translation) : string :=
  source translation +:+ "-" +:+ target translation +:+ "-" +:+
  from translation +:+ "-" +:+ to translation.

(** [Array.prototype.filter] with a callback that reads the index. *)
Fixpoint filter_index {A} (p : A → nat → bool) (index : nat) (l : list A) : list A :=
  match l with
  | [] => []
  | x :: l' =>
      if p x index then x :: filter_index p (S index) l'
      else filter_index p (S index) l'
  end.

(** The last [filter] of the updater; its callback reads and extends the
    [Set] named [set], which is threaded through the traversal. *)
Fixpoint filter_seen (set : gset string) (l : list Translation) : list Translation :=
  match l with
  | [] => []
  | translation :: l' =>
      if decide (key translation ∈ set) then filter_seen set l'
      else translation :: filter_seen ({[key translation]} ∪ set) l'
  end.

Definition isDuplicate `{!Runtime} (newTranslation : Translation) (prev : list Translation) : bool :=
  bool_decide (Exists (sameTranslation newTranslation) prev).

(** The variable [temp] of the updater, after the [if]. *)
Definition temp `{!Runtime} (newTranslation : Translation) (prev : list Translation)
  : list Translation :=
  if isDuplicate newTranslation prev then
    take 10 (newTranslation ::
             filter (λ translation, ¬ sameTranslation newTranslation translation) prev)
  else
    newTranslation :: take 9 prev.

(** [(prev) => { ... }] of [setRecentTranslations], with the record of
    the enclosing scope as first argument. *)
Definition updater `{!Runtime} (newTranslation : Translation) (prev : list Translation)
  : list Translation :=
  filter_seen ∅
    (filter_index (λ _ index, bool_decide (index < 10)%nat) 0
       (temp newTranslation prev)).

(** The old records that [temp] draws from: [prev] without the records
    the [filter] of the duplicate branch removes. *)
Definition kept `{!Runtime} (newTranslation : Translation) (prev : list Translation)
  : list Translation :=
  if isDuplicate newTranslation prev then
    filter (λ translation, ¬ sameTranslation newTranslation translation) prev
  else prev.

(** Insertions one after the other, the first of [news] first. *)
Definition insert_all `{!Runtime} (news : list Translation) (prev : list Translation)
  : list Translation :=
  foldl (λ h n, updater n h) prev news.

(** The identity tuple of the specification. *)
Definition identity `{!Runtime} (t : Translation) : string * string * string * string :=
  (toLowerCase (source t), toLowerCase (target t), from t, to t).

End History.

(** ** The language catalog *)

Definition languages : list Language := [
  mkLanguage "auto" "Detect Language" "🌐";
  mkLanguage "en" "English" "🇺🇸";
  mkLanguage "es" "Spanish" "🇪🇸";
  mkLanguage "fr" "French" "🇫🇷";
  mkLanguage "de" "German" "🇩🇪";
  mkLanguage "it" "Italian" "🇮🇹";
  mkLanguage "pt" "Portuguese" "🇵🇹";
  mkLanguage "ru" "Russian" "🇷🇺";
  mkLanguage "ja" "Japanese" "🇯🇵";
  mkLanguage "ko" "Korean" "🇰🇷";
  mkLanguage "zh" "Chinese (Simplified)" "🇨🇳";
  mkLanguage "zh-TW" "Chinese (Traditional)" "🇹🇼";
  mkLanguage "ar" "Arabic" "🇸🇦";
  mkLanguage "hi" "Hindi" "🇮🇳";
  mkLanguage "th" "Thai" "🇹🇭";
  mkLanguage "vi" "Vietnamese" "🇻🇳";
  mkLanguage "nl" "Dutch" "🇳🇱";
  mkLanguage "sv" "Swedish" "🇸🇪";
  mkLanguage "da" "Danish" "🇩🇰";
  mkLanguage "no" "Norwegian" "🇳🇴"
].

(** ** JavaScript values and exceptions *)

Module JS.

#[local] Set Warnings "-register-all".

(** What [response.json()] resolves to, and [undefined] for the result of
    reading a missing property.  Numbers are observed by the code only
    through truthiness and through their print in a message; an object is
    the list of its own properties. *)
Inductive value :=
| Undefined
| Null
| Bool (b : bool)
| Num (n : Z)
| Str (s : string)
| Arr (elements : list value)
| Obj (properties : list (string * value)).

(** Thrown values: [new Error(message)], the [TypeError] of the runtime,
    the [SyntaxError] of [response.json()], and a thrown value that is
    not an [Error] instance. *)
Inductive exn :=
| Error (message : string)
| TypeError (message : string)
| SyntaxError (message : string)
| NotAnError.

(** [x instanceof Error ? x.message : fallback] *)
Definition message_or (e : exn) (fallback : string) : string :=
  match e with
  | Error m | TypeError m | SyntaxError m => m
  | NotAnError => fallback
  end.

Definition Throws (A : Type) : Type := exn + A.

#[global] Instance Throws_ret : MRet Throws := λ _ x, inr x.
#[global] Instance Throws_bind : MBind Throws := λ _ _ f m,
  match m with inl e => inl e | inr x => f x end.
Definition throw {A} (e : exn) : Throws A := inl e.

(** [!!v] *)
Definition truthy (v : value) : bool :=
  match v with
  | Undefined | Null => false
  | Bool b => b
  | Num n => negb (n =? 0)
  | Str s => JSString.truthy s
  | Arr _ | Obj _ => true
  end.

Fixpoint lookup_property (k : string) (properties : list (string * value)) : value :=
  match properties with
  | [] => Undefined
  | (k', v) :: rest => if decide (k' = k) then v else lookup_property k rest
  end.

Definition describe (v : value) : string :=
  match v with Null => "null" | _ => "undefined" end.

(** [v.k] for a property name [k] that no prototype defines (the code
    reads [candidates], [content], [parts], [text], [error], [message]):
    reading from [null] or [undefined] throws, a primitive or an array has
    no such property.  The text of the [TypeError] is V8's. *)
Definition get (k : string) (v : value) : Throws value :=
  match v with
  | Undefined | Null =>
      throw (TypeError ("Cannot read properties of " +:+ describe v +:+
                        " (reading '" +:+ k +:+ "')"))
  | Obj properties => mret (lookup_property k properties)
  | _ => mret Undefined
  end.

(** [v[0]] *)
Definition get0 (v : value) : Throws value :=
  match v with
  | Undefined | Null =>
      throw (TypeError ("Cannot read properties of " +:+ describe v +:+
                        " (reading '0')"))
  | Arr elements => mret (default Undefined (head elements))
  | Str (String c _) => mret (Str (String c EmptyString))
  | Obj properties => mret (lookup_property "0" properties)
  | _ => mret Undefined
  end.

(** [v.trim()] where [v] is the value just read from property [text]. *)
Definition call_trim `{!Runtime} (v : value) : Throws string :=
  match v with
  | Str s => mret (trim s)
  | Undefined | Null =>
      throw (TypeError ("Cannot read properties of " +:+ describe v +:+
                        " (reading 'trim')"))
  | _ => throw (TypeError "data.candidates[0].content.parts[0].text.trim is not a function")
  end.

Definition join (sep : string) (l : list string) : string :=
  match l with
  | [] => ""
  | s :: rest => foldl (λ acc x, acc +:+ sep +:+ x) s rest
  end.

(** [`${v}`]: the string a template literal inserts for [v]. *)
Fixpoint to_string `{!Runtime} (v : value) : string :=
  match v with
  | Undefined => "undefined"
  | Null => "null"
  | Bool true => "true"
  | Bool false => "false"
  | Num n => number_to_string n
  | Str s => s
  | Arr elements =>
      join "," (map (λ x, match x with
                          | Undefined | Null => ""
                          | _ => to_string x
                          end) elements)
  | Obj _ => "[object Object]"
  end.

(** A step of a property path: [.k] or [[0]]. *)
Inductive step := Prop_ (k : string) | Index0.

(** Evaluation of [data.a.b[0]...], left to right. *)
Fixpoint access (path : list step) (v : value) : Throws value :=
  match path with
  | [] => mret v
  | Prop_ k :: rest => v' ← get k v; access rest v'
  | Index0 :: rest => v' ← get0 v; access rest v'
  end.

End JS.

(** ** API adapter: [translateWithGemini] *)

Module Adapter.
Import JS.

(** The request handed to [fetch]; [temperature] is in tenths. *)
Record Request := mkRequest {
  url : string;
  method : string;
  contentType : string;
  prompt_text : string;
  temperature_tenths : Z;
  maxOutputTokens : Z
}.

(** What the code reads of a [Response]; [json] is what
    [response.json()] settles to: the parsed body, or the reason it
    rejects with. *)
Record Response := mkResponse {
  ok : bool;
  status : Z;
  json : Throws value
}.

(** The promise returned by [fetch] settles one way or the other. *)
Inductive Settled :=
| Rejected (e : exn)
| Resolved (response : Response).

Definition Fetch : Type := Request → Settled.

(** [languages.find((lang) => lang.code === c)?.name || c] *)
Definition languageName (c : string) : string :=
  match List.find (λ lang, bool_decide (code lang = c)) languages with
  | Some lang => or_else (name lang) c
  | None => c
  end.

Definition prompt (text fromLang toLang : string) : string :=
  let fromLangName := languageName fromLang in
  let toLangName := languageName toLang in
  if decide (fromLang = "auto") then
    "Translate the following text to " +:+ toLangName +:+
    ". Only return the translation, nothing else:" +:+ LF +:+ LF +:+ text
  else
    "Translate the following text from " +:+ fromLangName +:+ " to " +:+
    toLangName +:+ ". Only return the translation, nothing else:" +:+
    LF +:+ LF +:+ text.

(** [apiKey || import.meta.env.VITE_GEMINI_KEY], as the template literal
    prints it. *)
Definition key_parameter (VITE_GEMINI_KEY : option string) (apiKey : string) : string :=
  if JSString.truthy apiKey then apiKey
  else match VITE_GEMINI_KEY with Some k => k | None => "undefined" end.

Definition request (VITE_GEMINI_KEY : option string)
    (text fromLang toLang apiKey : string) : Request :=
  {| url := "https://generativelanguage.googleapis.com/v1beta/models/gemini-1.5-flash-latest:generateContent?key=" +:+
            key_parameter VITE_GEMINI_KEY apiKey;
     method := "POST";
     contentType := "application/json";
     prompt_text := prompt text fromLang toLang;
     temperature_tenths := 1;
     maxOutputTokens := 2048 |}.

(** The two errors the function constructs by itself: for an empty key
    (the specification's ConfigError) and for a response without the
    expected shape (its ProtocolError). *)
Definition config_error : exn := Error "Gemini API key is required".
Definition invalid_response : exn := Error "Invalid response from Gemini API".

(** The part of the function after [const data = await response.json()]. *)
Definition read_translation `{!Runtime} (data : value) : Throws string :=
  c ← access [Prop_ "candidates"] data;
  if negb (truthy c) then throw invalid_response else
  c0 ← access [Prop_ "candidates"; Index0] data;
  if negb (truthy c0) then throw invalid_response else
  content ← access [Prop_ "candidates"; Index0; Prop_ "content"] data;
  if negb (truthy content) then throw invalid_response else
  p0 ← access [Prop_ "candidates"; Index0; Prop_ "content"; Prop_ "parts"; Index0] data;
  if negb (truthy p0) then throw invalid_response else
  text ← access [Prop_ "candidates"; Index0; Prop_ "content"; Prop_ "parts"; Index0;
                 Prop_ "text"] data;
  call_trim text.

(** The branch [if (!response.ok)]: it always throws. *)
Definition transport_error `{!Runtime} (response : Response) : exn :=
  let errorData := match json response with inr v => v | inl _ => Obj [] end in
  match get "error" errorData with
  | inl e => e
  | inr err =>
      (* error?.message *)
      let m := match err with
               | Undefined | Null => inr Undefined
               | _ => get "message" err
               end in
      match m with
      | inl e => e
      | inr m =>
          Error ("Gemini API error: " +:+ pretty (status response) +:+ " - " +:+
                 (if truthy m then to_string m else "Unknown error"))
      end
  end.

(** [translateWithGemini]: the requests issued, and the outcome. *)
Definition translateWithGemini `{!Runtime} (VITE_GEMINI_KEY : option string) (fetch : Fetch)
    (text fromLang toLang apiKey : string) : list Request * Throws string :=
  if negb (JSString.truthy apiKey) then
    ([], throw config_error)
  else
    let req := request VITE_GEMINI_KEY text fromLang toLang apiKey in
    ([req],
     match fetch req with
     | Rejected e => throw e
     | Resolved response =>
         if negb (ok response) then throw (transport_error response)
         else
           match json response with
           | inl e => throw e
           | inr data => read_translation data
           end
     end).

(** [interface GeminiResponse] and its image among the values. *)
Record Part := mkPart { text : string }.
Record Content := mkContent { parts : list Part }.
Record Candidate := mkCandidate { content : Content }.
Record GeminiResponse := mkGeminiResponse { candidates : list Candidate }.

Definition value_of_part (p : Part) : value := Obj [("text", Str (text p))].
Definition value_of_content (c : Content) : value :=
  Obj [("parts", Arr (value_of_part <$> parts c))].
Definition value_of_candidate (c : Candidate) : value :=
  Obj [("content", value_of_content (content c))].
Definition value_of_response (r : GeminiResponse) : value :=
  Obj [("candidates", Arr (value_of_candidate <$> candidates r))].

(** A value has the declared type when it is an object whose [candidates]
    is an array of objects, each with a [content] object whose [parts] is an
    array of objects with a string [text]; other properties are free. *)
Definition part_shape (v : value) (p : Part) : Prop :=
  ∃ properties, v = Obj properties ∧ lookup_property "text" properties = Str (text p).

Definition content_shape (v : value) (c : Content) : Prop :=
  ∃ properties ps,
    v = Obj properties ∧ lookup_property "parts" properties = Arr ps ∧
    Forall2 part_shape ps (parts c).

Definition candidate_shape (v : value) (c : Candidate) : Prop :=
  ∃ properties,
    v = Obj properties ∧
    content_shape (lookup_property "content" properties) (content c).

Definition response_shape (v : value) (r : GeminiResponse) : Prop :=
  ∃ properties cs,
    v = Obj properties ∧ lookup_property "candidates" properties = Arr cs ∧
    Forall2 candidate_shape cs (candidates r).

(** What the code meets on its way to the text of a body: no first
    candidate, a first candidate without content, a content without first
    part, or the text of the first part. *)
Inductive Reading := NoCandidate | NoContent | NoPart | FirstText (s : string).

(** The first element of an array, [undefined] for the empty array. *)
Definition first (elements : list value) : value := default Undefined (head elements).

(** The bodies on which the code reaches one of these ends without reading
    a property of [null] or [undefined] and without calling [trim] on
    something that is not a string.  Only what lies on the way to the
    first part matters: the body may hold anything else. *)
Inductive reads : value → Reading → Prop :=
| reads_not_object data :
    match data with Bool _ | Num _ | Str _ | Arr _ => True | _ => False end →
    reads data NoCandidate
| reads_no_candidates properties :
    truthy (lookup_property "candidates" properties) = false →
    reads (Obj properties) NoCandidate
| reads_no_first_candidate properties cs :
    lookup_property "candidates" properties = Arr cs →
    truthy (first cs) = false →
    reads (Obj properties) NoCandidate
| reads_no_content properties cs candidate :
    lookup_property "candidates" properties = Arr cs →
    first cs = Obj candidate →
    truthy (lookup_property "content" candidate) = false →
    reads (Obj properties) NoContent
| reads_no_part properties cs candidate content ps :
    lookup_property "candidates" properties = Arr cs →
    first cs = Obj candidate →
    lookup_property "content" candidate = Obj content →
    lookup_property "parts" content = Arr ps →
    truthy (first ps) = false →
    reads (Obj properties) NoPart
| reads_text properties cs candidate content ps part s :
    lookup_property "candidates" properties = Arr cs →
    first cs = Obj candidate →
    lookup_property "content" candidate = Obj content →
    lookup_property "parts" content = Arr ps →
    first ps = Obj part →
    lookup_property "text" part = Str s →
    reads (Obj properties) (FirstText s).



(** A network that answers every request with status 200 and [body]. *)
Definition answers (body : value) : Fetch :=
  λ _, Resolved (mkResponse true 200 (inr body)).

End Adapter.

(** ** Session controller: the state and handlers of [Translate] *)

Module Session.
Import JS Adapter.

(** The [useState] cells of the component. *)
Record State := mkState {
  sourceText : string;
  translatedText : string;
  sourceLang : string;
  targetLang : string;
  isTranslating : bool;
  recentTranslations : list Translation;
  apiKey : string;
  showApiKeyInput : bool;
  error : string
}.

Definition setSourceText (v : string) (st : State) : State :=
  mkState v (translatedText st) (sourceLang st) (targetLang st) (isTranslating st)
          (recentTranslations st) (apiKey st) (showApiKeyInput st) (error st).
Definition setTranslatedText (v : string) (st : State) : State :=
  mkState (sourceText st) v (sourceLang st) (targetLang st) (isTranslating st)
          (recentTranslations st) (apiKey st) (showApiKeyInput st) (error st).
Definition setSourceLang (v : string) (st : State) : State :=
  mkState (sourceText st) (translatedText st) v (targetLang st) (isTranslating st)
          (recentTranslations st) (apiKey st) (showApiKeyInput st) (error st).
Definition setTargetLang (v : string) (st : State) : State :=
  mkState (sourceText st) (translatedText st) (sourceLang st) v (isTranslating st)
          (recentTranslations st) (apiKey st) (showApiKeyInput st) (error st).
Definition setIsTranslating (v : bool) (st : State) : State :=
  mkState (sourceText st) (translatedText st) (sourceLang st) (targetLang st) v
          (recentTranslations st) (apiKey st) (showApiKeyInput st) (error st).
(** [setRecentTranslations] in its updater form; a plain value is the
    constant updater. *)
Definition setRecentTranslations (f : list Translation → list Translation)
    (st : State) : State :=
  mkState (sourceText st) (translatedText st) (sourceLang st) (targetLang st)
          (isTranslating st) (f (recentTranslations st)) (apiKey st)
          (showApiKeyInput st) (error st).
Definition setApiKey (v : string) (st : State) : State :=
  mkState (sourceText st) (translatedText st) (sourceLang st) (targetLang st)
          (isTranslating st) (recentTranslations st) v (showApiKeyInput st) (error st).
Definition setShowApiKeyInput (v : bool) (st : State) : State :=
  mkState (sourceText st) (translatedText st) (sourceLang st) (targetLang st)
          (isTranslating st) (recentTranslations st) (apiKey st) v (error st).
Definition setError (v : string) (st : State) : State :=
  mkState (sourceText st) (translatedText st) (sourceLang st) (targetLang st)
          (isTranslating st) (recentTranslations st) (apiKey st) (showApiKeyInput st) v.

(** The values [handleTranslate] closes over (the dependency list of its
    [useCallback]). *)
Record Closure := mkClosure {
  c_sourceText : string;
  c_sourceLang : string;
  c_targetLang : string;
  c_apiKey : string
}.

Definition closure_of (st : State) : Closure :=
  mkClosure (sourceText st) (sourceLang st) (targetLang st) (apiKey st).

(** [handleTranslate] up to its [await]: either it returns (no pending
    call), or the call to [translateWithGemini] is pending. *)
Definition handleTranslate_begin `{!Runtime} (st : State) : State * option Closure :=
  let c := closure_of st in
  if negb (JSString.truthy (trim (c_sourceText c))) then (st, None)
  else if negb (JSString.truthy (c_apiKey c)) then
    (setShowApiKeyInput true (setError "Please enter your Gemini API key first" st), None)
  else
    (setError "" (setIsTranslating true st), Some c).

(** The record built after a successful call; [now] is [Date.now()]. *)
Definition newTranslation `{!Runtime} (c : Closure) (result : string) (now : Z) : Translation :=
  {| source := trim (c_sourceText c);
     target := result;
     from := if decide (c_sourceLang c = "auto") then "en" else c_sourceLang c;
     to := c_targetLang c;
     timestamp := now |}.

(** [handleTranslate] from the [await] on, run on the state current when
    the call settles: the [try] body, the [catch] and the [finally]. *)
Definition handleTranslate_settle `{!Runtime} (VITE_GEMINI_KEY : option string) (fetch : Fetch)
    (now : Z) (c : Closure) (st : State) : State * list Request :=
  let '(requests, outcome) :=
    translateWithGemini VITE_GEMINI_KEY fetch
      (c_sourceText c) (c_sourceLang c) (c_targetLang c) (c_apiKey c) in
  match outcome with
  | inr result =>
      (setIsTranslating false
         (setRecentTranslations (History.updater (newTranslation c result now))
            (setTranslatedText result st)),
       requests)
  | inl e =>
      (setIsTranslating false
         (setTranslatedText ""
            (setError (message_or e "Translation failed. Please try again.") st)),
       requests)
  end.

(** One run of [handleTranslate] with nothing happening in between. *)
Definition handleTranslate `{!Runtime} (VITE_GEMINI_KEY : option string) (fetch : Fetch)
    (now : Z) (st : State) : State * list Request :=
  match handleTranslate_begin st with
  | (st', None) => (st', [])
  | (st', Some c) => handleTranslate_settle VITE_GEMINI_KEY fetch now c st'
  end.

Definition swapLanguages (st : State) : State :=
  if negb (bool_decide (sourceLang st = "auto")) && JSString.truthy (translatedText st) then
    setTranslatedText (sourceText st)
      (setSourceText (translatedText st)
         (setTargetLang (sourceLang st)
            (setSourceLang (targetLang st) st)))
  else st.

Definition clearText (st : State) : State :=
  setError "" (setTranslatedText "" (setSourceText "" st)).

Definition clearHistory (st : State) : State :=
  setRecentTranslations (λ _, []) st.

Definition handleSourceLangChange (v : string) (st : State) : State := setSourceLang v st.
Definition handleTargetLangChange (v : string) (st : State) : State := setTargetLang v st.

(** [text] is [e.target.value]. *)
Definition handleSourceTextChange `{!Runtime} (text : string) (st : State) : State :=
  if bool_decide (text_length text ≤ 5000)%nat then
    let st' := setSourceText text st in
    if JSString.truthy (error st) then setError "" st' else st'
  else st.

Definition handleRecentTranslation (translation : Translation) (st : State) : State :=
  setTargetLang (to translation)
    (setSourceLang (from translation)
       (setSourceText (source translation) st)).

Definition saveApiKey `{!Runtime} (st : State) : State :=
  if JSString.truthy (trim (apiKey st)) then setError "" (setShowApiKeyInput false st)
  else st.

(** *** Start-up *)

(** [URLSearchParams]: the pairs of the query string, and [get], which
    returns the first value of a name. *)
Definition SearchParams : Type := list (string * string).

Fixpoint searchParams_get (k : string) (params : SearchParams) : option string :=
  match params with
  | [] => None
  | (k', v) :: rest => if decide (k' = k) then Some v else searchParams_get k rest
  end.

(** [o || d] where [o] is a string or [null]. *)
Definition get_or (o : option string) (d : string) : string :=
  match o with Some s => or_else s d | None => d end.

Definition getUrlParams (params : SearchParams) : string * string :=
  (get_or (searchParams_get "sl" params) "en",
   get_or (searchParams_get "tl" params) "ja").

(** The initial values given to [useState]. *)
Definition initialState (VITE_GEMINI_KEY : option string) (params : SearchParams)
  : State :=
  {| sourceText := "";
     translatedText := "";
     sourceLang := get_or (searchParams_get "sl" params) "en";
     targetLang := get_or (searchParams_get "tl" params) "ja";
     isTranslating := false;
     recentTranslations := [];
     apiKey := get_or VITE_GEMINI_KEY "";
     showApiKeyInput := false;
     error := "" |}.

Definition inCatalog (c : string) : bool :=
  existsb (λ lang, bool_decide (code lang = c)) languages.

(** The mount effect.  [localStorage] is a map from names to strings;
    [parse] stands for [JSON.parse] at type [Translation[]], [None] when
    it throws. *)
Definition mountEffect (params : SearchParams) (localStorage : gmap string string)
    (parse : string → option (list Translation)) (st : State) : State :=
  let '(sl, tl) := getUrlParams params in
  let savedApiKey := get_or (localStorage !! "gemini-api-key") "" in
  let savedTranslations := localStorage !! "translation-history" in
  let st1 := if JSString.truthy sl && inCatalog sl then setSourceLang sl st else st in
  let st2 := if JSString.truthy tl && inCatalog tl then setTargetLang tl st1 else st1 in
  let st3 := setShowApiKeyInput (negb (JSString.truthy savedApiKey))
               (setApiKey savedApiKey st2) in
  match savedTranslations with
  | Some saved =>
      if JSString.truthy saved then
        match parse saved with
        | Some parsedTranslations => setRecentTranslations (λ _, parsedTranslations) st3
        | None => st3
        end
      else st3
  | None => st3
  end.

Definition startup (VITE_GEMINI_KEY : option string) (params : SearchParams)
    (localStorage : gmap string string)
    (parse : string → option (list Translation)) : State :=
  mountEffect params localStorage parse (initialState VITE_GEMINI_KEY params).

(** A record that does not carry the sentinel [auto] as source code. *)
Definition no_auto (t : Translation) : Prop := from t ≠ "auto".

(** *** The controller as a transition system *)

(** [Translate] is a whole run of [handleTranslate]; [Begin] and
    [Settle] are its two halves, for runs during which other events
    happen: [Settle c] is the settling of a call begun with closure [c]. *)
Inductive Event :=
| Translate (fetch : Fetch) (now : Z)
| Begin
| Settle (c : Closure) (fetch : Fetch) (now : Z)
| SourceTextChange (text : string)
| SourceLangChange (v : string)
| TargetLangChange (v : string)
| ApiKeyChange (v : string)
| SaveApiKey
| ToggleApiKeyInput
| Swap
| ClearText
| ClearHistory
| UseRecent (index : nat).

Definition step `{!Runtime} (VITE_GEMINI_KEY : option string) (st : State) (ev : Event) : State :=
  match ev with
  | Translate fetch now => fst (handleTranslate VITE_GEMINI_KEY fetch now st)
  | Begin => fst (handleTranslate_begin st)
  | Settle c fetch now => fst (handleTranslate_settle VITE_GEMINI_KEY fetch now c st)
  | SourceTextChange text => handleSourceTextChange text st
  | SourceLangChange v => handleSourceLangChange v st
  | TargetLangChange v => handleTargetLangChange v st
  | ApiKeyChange v => setApiKey v st
  | SaveApiKey => saveApiKey st
  | ToggleApiKeyInput => setShowApiKeyInput (negb (showApiKeyInput st)) st
  | Swap => swapLanguages st
  | ClearText => clearText st
  | ClearHistory => clearHistory st
  | UseRecent index =>
      match recentTranslations st !! index with
      | Some translation => handleRecentTranslation translation st
      | None => st
      end
  end.

Definition run `{!Runtime} (VITE_GEMINI_KEY : option string) (events : list Event) (st : State)
  : State :=
  foldl (step VITE_GEMINI_KEY) st events.

End Session.

(** ** Effects of the component, URL and storage *)

Module Effects.
Import JS Adapter Session.

(** [URLSearchParams.prototype.delete]: every pair of that name goes. *)
Definition searchParams_delete (k : string) (params : list (string * string))
  : SearchParams :=
  filter (λ p, p.1 ≠ k) params.

(** [URLSearchParams.prototype.set]: the first pair of that name takes the
    value and the other pairs of that name go; without such a pair, one is
    appended. *)
Fixpoint searchParams_set (k v : string) (params : SearchParams) : SearchParams :=
  match params with
  | [] => [(k, v)]
  | (k', v') :: rest =>
      if decide (k' = k) then (k, v) :: searchParams_delete k rest
      else (k', v') :: searchParams_set k v rest
  end.

(** [updateUrlParams], on the query of [window.location]; the result is the
    query after [replaceState]. *)
Definition updateUrlParams (sourceLang targetLang : string) (params : SearchParams)
  : SearchParams :=
  let params1 :=
    if JSString.truthy sourceLang && negb (bool_decide (sourceLang = "auto"))
    then searchParams_set "sl" sourceLang params
    else searchParams_delete "sl" params in
  if JSString.truthy targetLang then searchParams_set "tl" targetLang params1
  else params1.

(** The effect on [[sourceLang, targetLang]]. *)
Definition urlEffect (st : State) (params : SearchParams) : SearchParams :=
  updateUrlParams (sourceLang st) (targetLang st) params.

(** The effect on [[apiKey]]. *)
Definition saveApiKeyEffect (st : State) (localStorage : gmap string string)
  : gmap string string :=
  if JSString.truthy (apiKey st) then <["gemini-api-key" := apiKey st]> localStorage
  else localStorage.

(** The effect on [[recentTranslations]]; [stringify] stands for
    [JSON.stringify] at type [Translation[]]. *)
Definition saveHistoryEffect (stringify : list Translation → string) (st : State)
    (localStorage : gmap string string) : gmap string string :=
  <["translation-history" := stringify (recentTranslations st)]> localStorage.

(** The callback the debounce effect hands to [setTimeout]. *)
Definition autoTranslate `{!Runtime} (VITE_GEMINI_KEY : option string) (fetch : Fetch) (now : Z)
    (st : State) : State * list Request :=
  if JSString.truthy (trim (sourceText st)) && JSString.truthy (apiKey st) then
    handleTranslate VITE_GEMINI_KEY fetch now st
  else (setTranslatedText "" st, []).

(** The base of the URL of every request. *)
Definition endpoint : string :=
  "https://generativelanguage.googleapis.com/v1beta/models/gemini-1.5-flash-latest:generateContent?key=".

End Effects.

(** ** Sample records *)

Module Samples.

(** The records of the specification's examples, at a given time. *)
Definition recordA (ts : Z) := mkTranslation "hello" "bonjour" "en" "fr" ts.
Definition recordB (ts : Z) := mkTranslation "hi" "salut" "en" "fr" ts.

(** Two records that differ in letter case only, and a third one. *)
Definition upperCase := mkTranslation "Hello" "Bonjour" "en" "fr" 1.
Definition lowerCase := mkTranslation "hello" "bonjour" "en" "fr" 2.
Definition goodbye := mkTranslation "goodbye" "au revoir" "en" "fr" 3.

(** Two records with different identities and the same key. *)
Definition dashLeft := mkTranslation "a-b" "c" "en" "fr" 1.
Definition dashRight := mkTranslation "a" "b-c" "en" "fr" 2.

(** A record with the identity of [dashRight] and a key of its own. *)
Definition dashUpper := mkTranslation "A" "B-C" "en" "fr" 0.

(** The [i]-th of a series of unrelated records. *)
Definition numbered (i : Z) :=
  mkTranslation ("text " +:+ pretty i) ("texte " +:+ pretty i) "en" "fr" i.

Definition eleven : list Translation := numbered <$> [1; 2; 3; 4; 5; 6; 7; 8; 9; 10; 11].


(** A session without API key: with a blank input, and with an input
    and the output of an earlier translation. *)
Definition blankInput : Session.State :=
  Session.mkState " " "" "en" "ja" false [] "" false "".
Definition staleOutput : Session.State :=
  Session.mkState "hello" "bonjour" "en" "fr" false [] "" false "".

(** A session with a key, about to translate ["  good morning "] from a
    detected language. *)
Definition autoSession : Session.State :=
  Session.mkState "  good morning " "" "auto" "de" false [] "key" false "".

(** A response of the declared type with one candidate and one part. *)
Definition oneText (s : string) : JS.value :=
  Adapter.value_of_response
    (Adapter.mkGeminiResponse
       [Adapter.mkCandidate (Adapter.mkContent [Adapter.mkPart s])]).

(** A response whose only candidate is an empty object. *)
Definition emptyCandidate : JS.value :=
  JS.Obj [("candidates", JS.Arr [JS.Obj []])].


(** A response whose first candidate has a [content] without [parts]. *)
Definition contentWithoutParts : JS.value :=
  JS.Obj [("candidates", JS.Arr [JS.Obj [("content", JS.Obj [])]])].

End Samples.

Module MoreSamples.

(** A session showing a translation from French into German. *)
Definition frenchGerman : Session.State :=
  Session.mkState "bonjour" "guten Tag" "fr" "de" false [] "key" false "".

(** A query that carries a campaign parameter besides the languages. *)
Definition campaignQuery : Session.SearchParams :=
  [("utm", "mail"); ("sl", "fr"); ("tl", "de"); ("sl", "it")].

(** An answer with status 404 and the error body of the service. *)
Definition notFound : Adapter.Response :=
  Adapter.mkResponse false 404
    (inr (JS.Obj [("error", JS.Obj [("code", JS.Num 404);
                                     ("message", JS.Str "model not found")])])).

(** A session whose history holds a record made earlier. *)
Definition withHistory : Session.State :=
  Session.mkState "" "" "en" "ja" false
    [Samples.recordB 2; Samples.recordA 1] "key" false "".

End MoreSamples.

(** * Properties *)

(** ** History cache *)

Module HistoryFacts.
Import History.

Section facts.
Context {R : Runtime}.

Lemma filter_index_lt {A} (n k : nat) (l : list A) :
  filter_index (λ _ index, bool_decide (index < n)%nat) k l = take (n - k) l.
Proof.
  revert k. induction l as [|x l IH]; intros k; simpl.
  - by rewrite take_nil.
  - rewrite IH. case_bool_decide as Hk.
    + by destruct (n - k)%nat as [|m] eqn:E; [lia|]; replace (n - S k)%nat with m by lia.
    + by destruct (n - k)%nat eqn:E, (n - S k)%nat eqn:E'; try lia.
Qed.

Lemma filter_seen_sublist set l : filter_seen set l `sublist_of` l.
Proof.
  revert set. induction l as [|t l IH]; intros set; simpl; [done|].
  case_decide; [apply sublist_cons | apply sublist_skip]; apply IH.
Qed.

(** Nothing already in [set] survives, and the survivors have pairwise
    different keys. *)
Lemma filter_seen_keys set l :
  NoDup (key <$> filter_seen set l) ∧
  ∀ t, t ∈ filter_seen set l → key t ∉ set.
Proof.
  revert set. induction l as [|t l IHl]; intros set; simpl.
  - split; [constructor | by intros t ?%elem_of_nil].
  - case_decide as Hin; [apply IHl|].
    destruct (IHl ({[key t]} ∪ set)) as [Hnd Hout]. split.
    + rewrite fmap_cons. apply NoDup_cons. split; [|done].
      intros (t' & Hk & Ht')%list_elem_of_fmap.
      apply Hout in Ht'. rewrite not_elem_of_union, not_elem_of_singleton in Ht'.
      by destruct Ht'.
    + intros t' [->|Ht']%elem_of_cons; [done|].
      apply Hout in Ht'. rewrite not_elem_of_union in Ht'. by destruct Ht'.
Qed.

(** On a list whose keys are pairwise different and new to [set], the
    pass changes nothing. *)
Lemma filter_seen_id set l :
  NoDup (key <$> l) → (∀ t, t ∈ l → key t ∉ set) → filter_seen set l = l.
Proof.
  revert set. induction l as [|t l IH]; intros set Hnd Hout; simpl; [done|].
  rewrite fmap_cons in Hnd. apply NoDup_cons in Hnd as [Hhd Hnd].
  rewrite decide_False by (apply Hout; left).
  f_equal. apply IH; [done|].
  intros t' Ht'. rewrite elem_of_union, elem_of_singleton.
  intros [Heq|Hs].
  - apply Hhd. rewrite <- Heq. by apply list_elem_of_fmap_2.
  - by apply (Hout t'); [right|].
Qed.

Lemma temp_cons n prev :
  temp n prev =
    n :: take 9 (if isDuplicate n prev
                 then filter (λ t, ¬ sameTranslation n t) prev else prev).
Proof. unfold temp. by destruct (isDuplicate n prev). Qed.

(** The index filter removes nothing: [temp] has at most ten elements. *)
Lemma updater_unfold n prev :
  updater n prev = filter_seen ∅ (temp n prev).
Proof.
  unfold updater. rewrite filter_index_lt, temp_cons. simpl. by rewrite take_take.
Qed.

Lemma updater_cons n prev :
  updater n prev =
    n :: filter_seen {[key n]}
           (take 9 (if isDuplicate n prev
                    then filter (λ t, ¬ sameTranslation n t) prev else prev)).
Proof.
  rewrite updater_unfold, temp_cons. simpl.
  rewrite decide_False by set_solver. by rewrite (right_id_L ∅ (∪)).
Qed.

Lemma updater_length n prev : (length (updater n prev) ≤ 10)%nat.
Proof.
  rewrite updater_cons. simpl.
  etrans; [apply le_n_S, sublist_length, filter_seen_sublist|].
  rewrite length_take. lia.
Qed.

(** A record that is new by identity and by key goes in front of the
    first nine old records. *)
Lemma updater_fresh n prev :
  ¬ Exists (sameTranslation n) prev →
  NoDup (key <$> n :: take 9 prev) →
  updater n prev = n :: take 9 prev.
Proof.
  intros Hnew Hnd. rewrite updater_unfold, temp_cons.
  unfold isDuplicate. rewrite bool_decide_eq_false_2 by done.
  apply filter_seen_id; [done | set_solver].
Qed.

Lemma updater_nil n : updater n [] = [n].
Proof.
  apply updater_fresh; [by intros ?%Exists_nil | apply NoDup_singleton].
Qed.

Lemma sameTranslation_identity n t :
  sameTranslation n t ↔ identity t = identity n.
Proof.
  unfold sameTranslation, identity. split.
  - intros (-> & -> & -> & ->). done.
  - intros [= -> -> -> ->]. done.
Qed.

Lemma isDuplicate_true n prev :
  isDuplicate n prev = true ↔ ∃ t, t ∈ prev ∧ identity t = identity n.
Proof.
  unfold isDuplicate. rewrite bool_decide_eq_true, Exists_exists.
  by setoid_rewrite sameTranslation_identity.
Qed.

Lemma kept_sublist n prev : kept n prev `sublist_of` prev.
Proof. unfold kept. destruct (isDuplicate n prev); [apply sublist_filter | done]. Qed.

Lemma kept_not_same n prev : Forall (λ t, ¬ sameTranslation n t) (kept n prev).
Proof.
  unfold kept, isDuplicate. case_bool_decide as Hdup.
  - apply Forall_forall. by intros t [? _]%list_elem_of_filter.
  - by apply not_Exists_Forall in Hdup; [|apply _].
Qed.

Lemma updater_rest n prev :
  ∃ rest, updater n prev = n :: rest ∧ rest `sublist_of` kept n prev.
Proof.
  rewrite updater_cons. eexists; split; [done|]. fold (kept n prev).
  etrans; [apply filter_seen_sublist | apply sublist_take].
Qed.

(** A history with pairwise different identities keeps them different. *)
Lemma updater_unique_identity n prev :
  NoDup (identity <$> prev) → NoDup (identity <$> updater n prev).
Proof.
  intros Hnd. destruct (updater_rest n prev) as (rest & -> & Hsub).
  rewrite fmap_cons. apply NoDup_cons. split.
  - intros (t & Hid & Ht)%list_elem_of_fmap.
    pose proof (kept_not_same n prev) as Hns.
    rewrite Forall_forall in Hns. apply (Hns t).
    + by eapply elem_of_sublist.
    + by apply sameTranslation_identity.
  - eapply sublist_NoDup; [exact Hnd|].
    apply fmap_sublist. etrans; [exact Hsub | apply kept_sublist].
Qed.

(** A record already present by identity replaces the records of that
    identity, when the old list is within bounds and no key clashes. *)
Lemma updater_promote n prev :
  Exists (sameTranslation n) prev →
  (length prev ≤ 10)%nat →
  NoDup (key <$> n :: filter (λ t, ¬ sameTranslation n t) prev) →
  updater n prev = n :: filter (λ t, ¬ sameTranslation n t) prev.
Proof.
  intros Hdup Hlen Hnd. rewrite updater_unfold, temp_cons.
  unfold isDuplicate. rewrite bool_decide_eq_true_2 by done.
  assert (length (filter (λ t, ¬ sameTranslation n t) prev) < length prev)%nat as Hlt.
  { clear Hlen Hnd. induction Hdup as [t l Ht | t l Hl IHl].
    - rewrite filter_cons_False by tauto. simpl.
      apply Nat.lt_succ_r, sublist_length, sublist_filter.
    - rewrite filter_cons. case_decide; simpl; lia. }
  rewrite take_ge by lia.
  apply filter_seen_id; [done | set_solver].
Qed.

Lemma take_10_app_take_9 {A} (front : list A) (x : A) (h : list A) :
  take 10 (front ++ x :: take 9 h) = take 10 (front ++ x :: h).
Proof.
  rewrite !take_app. f_equal.
  destruct (10 - length front)%nat as [|m] eqn:E; [done|]. simpl.
  rewrite take_take. f_equal. f_equal. lia.
Qed.

Lemma cons_take_sublist {A} (front : list A) (x : A) (h : list A) :
  front ++ x :: take 9 h `sublist_of` front ++ x :: h.
Proof. apply sublist_app; [done|]. apply sublist_skip, sublist_take. Qed.

(** Records that are pairwise different by identity and by key, and
    different from those of the old list, pile up in front of it. *)
Lemma insert_all_fresh l h :
  (length h ≤ 10)%nat →
  NoDup (identity <$> l ++ h) →
  NoDup (key <$> l ++ h) →
  insert_all l h = take 10 (reverse l ++ h).
Proof.
  revert h. induction l as [|n l IHl]; intros h Hlen Hid Hkey.
  - simpl. by rewrite take_ge.
  - assert (l ++ n :: take 9 h `sublist_of` l ++ n :: h) as Hsub
      by apply cons_take_sublist.
    assert (NoDup (identity <$> l ++ n :: h)) as Hid'.
    { by rewrite <- Permutation_middle. }
    assert (NoDup (key <$> l ++ n :: h)) as Hkey'.
    { by rewrite <- Permutation_middle. }
    unfold insert_all. simpl. fold (insert_all l (updater n h)).
    rewrite updater_fresh.
    + rewrite IHl.
      * rewrite reverse_cons, <- app_assoc. simpl. apply take_10_app_take_9.
      * simpl. rewrite length_take. lia.
      * eapply sublist_NoDup; [exact Hid' | by apply fmap_sublist].
      * eapply sublist_NoDup; [exact Hkey' | by apply fmap_sublist].
    + rewrite Exists_exists. intros (t & Ht & Hsame).
      apply sameTranslation_identity in Hsame.
      simpl in Hid. apply NoDup_cons in Hid as [Hhd _]. apply Hhd.
      rewrite <- Hsame. apply list_elem_of_fmap_2, elem_of_app. by right.
    + eapply sublist_NoDup; [exact Hkey|]. apply fmap_sublist. simpl.
      apply sublist_skip. etrans; [apply sublist_take|].
      by apply sublist_inserts_l.
Qed.

End facts.

End HistoryFacts.

Section HistoryClaims.
Import History HistoryFacts Samples.
Context {R : Runtime}.

(** C2: whatever the old list and the new record, the updater returns at
    most ten records; hence so does every non-empty run of insertions,
    from any list. *)
Theorem history_bounded :
  (∀ n prev, (length (updater n prev) ≤ 10)%nat) ∧
  (∀ news n prev, (length (insert_all (news ++ [n]) prev) ≤ 10)%nat).
Proof.
  split; [apply updater_length|].
  intros news n prev. unfold insert_all. rewrite foldl_snoc. apply updater_length.
Qed.

(** When the identity of the new record occurs in the old list, the
    result starts with the new record, none of the records after it has
    that identity, and they come from the old list in their old order; on
    a list within the bound and without key clash the result is the new
    record followed by the old records of other identities.  The same pair
    inserted twice into the empty list leaves the later record alone. *)
Lemma promotion_without_key_clash :
  (∀ n prev,
     Exists (sameTranslation n) prev →
     ∃ rest, updater n prev = n :: rest ∧
             Forall (λ t, identity t ≠ identity n) rest ∧
             rest `sublist_of` prev ∧
             ((length prev ≤ 10)%nat →
              NoDup (key <$> n :: filter (λ t, ¬ sameTranslation n t) prev) →
              rest = filter (λ t, ¬ sameTranslation n t) prev)) ∧
  (∀ s t f o ts1 ts2,
     insert_all [mkTranslation s t f o ts1; mkTranslation s t f o ts2] [] =
       [mkTranslation s t f o ts2]).
Proof.
  split.
  - intros n prev Hdup.
    destruct (updater_rest n prev) as (rest & Heq & Hsub).
    exists rest. split; [done|]. split; [|split].
    + pose proof (kept_not_same n prev) as Hns.
      rewrite Forall_forall in Hns |- *. intros t Ht Hid.
      apply (Hns t); [by eapply elem_of_sublist | by apply sameTranslation_identity].
    + etrans; [exact Hsub | apply kept_sublist].
    + intros Hlen Hnd. rewrite (updater_promote n prev Hdup Hlen Hnd) in Heq.
      by injection Heq.
  - intros s t f o ts1 ts2. unfold insert_all. simpl. rewrite updater_nil.
    set (r1 := mkTranslation s t f o ts1). set (r2 := mkTranslation s t f o ts2).
    assert (sameTranslation r2 r1) as Hsame by done.
    assert (filter (λ t, ¬ sameTranslation r2 t) [r1] = []) as Hfilter.
    { by rewrite filter_cons_False, filter_nil by tauto. }
    rewrite updater_promote; rewrite ?Hfilter.
    + done.
    + by apply Exists_cons_hd.
    + simpl; lia.
    + apply NoDup_singleton.
Qed.

(** C4 (amended): eleven records, pairwise different by identity and by
    key, inserted one after the other into the empty history, leave ten
    records: the eleventh first, then down to the second; the first one
    is gone. *)
Theorem eleven_inserts r1 r2 r3 r4 r5 r6 r7 r8 r9 r10 r11 :
  NoDup (identity <$> [r1; r2; r3; r4; r5; r6; r7; r8; r9; r10; r11]) →
  NoDup (key <$> [r1; r2; r3; r4; r5; r6; r7; r8; r9; r10; r11]) →
  insert_all [r1; r2; r3; r4; r5; r6; r7; r8; r9; r10; r11] [] =
    [r11; r10; r9; r8; r7; r6; r5; r4; r3; r2] ∧
  length (insert_all [r1; r2; r3; r4; r5; r6; r7; r8; r9; r10; r11] []) = 10%nat ∧
  r1 ∉ insert_all [r1; r2; r3; r4; r5; r6; r7; r8; r9; r10; r11] [].
Proof.
  intros Hid Hkey.
  assert (insert_all [r1; r2; r3; r4; r5; r6; r7; r8; r9; r10; r11] [] =
            reverse [r2; r3; r4; r5; r6; r7; r8; r9; r10; r11]) as Heq.
  { rewrite insert_all_fresh; rewrite ?app_nil_r; [done | simpl; lia | done..]. }
  rewrite Heq. split; [done|]. split; [done|].
  rewrite elem_of_reverse.
  apply NoDup_fmap_1 in Hid. by apply NoDup_cons in Hid as [? _].
Qed.

End HistoryClaims.

Section HistoryClaimsExamples.
Import History HistoryFacts Samples.

(** C1 (fails on the code): uniqueness of identities does not hold for
    every input list.  The last pass compares keys built from the stored
    spelling of the texts, so two old records that differ only in letter
    case, and hence share the identity tuple, both stay. *)
Theorem updater_keeps_case_variants :
  updater goodbye [upperCase; lowerCase] = [goodbye; upperCase; lowerCase] ∧
  identity upperCase = identity lowerCase ∧
  ¬ NoDup (identity <$> updater goodbye [upperCase; lowerCase]).
Proof.
  assert (updater goodbye [upperCase; lowerCase] = [goodbye; upperCase; lowerCase])
    as Heq by (by vm_compute).
  split; [exact Heq|]. split; [by vm_compute|].
  rewrite Heq. intros Hnd. simpl in Hnd.
  apply NoDup_cons in Hnd as [_ Hnd]. apply NoDup_cons in Hnd as [Hhd _].
  apply Hhd. vm_compute. left.
Qed.

(** The example of the specification: A, then B, then A again leave A
    with its last timestamp, then B. *)
Lemma example_A_B_A ts1 ts2 ts3 :
  insert_all [recordA ts1; recordB ts2; recordA ts3] [] = [recordA ts3; recordB ts2].
Proof. by vm_compute. Qed.

(** C3 (fails on the code): the third of three translations has the
    identity of the first; it replaces the first, as it should, and the
    second, a record of another identity, is lost with it, because the
    last pass takes the second for a repetition of the third: their keys
    [a-b-c-en-fr] coincide. *)
Theorem promotion_drops_unrelated_record :
  insert_all [dashUpper; dashLeft] [] = [dashLeft; dashUpper] ∧
  identity dashRight = identity dashUpper ∧
  identity dashLeft ≠ identity dashRight ∧
  updater dashRight [dashLeft; dashUpper] = [dashRight] ∧
  updater dashRight [dashLeft; dashUpper] ≠ [dashRight; dashLeft].
Proof. repeat split; by vm_compute. Qed.

(** C4 as stated fails: eleven records that differ pairwise leave ten
    records, not six. *)
Lemma eleven_inserts_length_not_6 :
  NoDup (identity <$> eleven) ∧ length (insert_all eleven []) ≠ 6%nat.
Proof.
  split.
  - apply (bool_decide_unpack _). by vm_compute.
  - by vm_compute.
Qed.

Lemma eleven_inserts_witness :
  insert_all eleven [] = reverse (numbered <$> [2; 3; 4; 5; 6; 7; 8; 9; 10; 11]) ∧
  length (insert_all eleven []) = 10%nat ∧
  numbered 1 ∉ insert_all eleven [].
Proof.
  apply (eleven_inserts (numbered 1) (numbered 2) (numbered 3) (numbered 4)
           (numbered 5) (numbered 6) (numbered 7) (numbered 8) (numbered 9)
           (numbered 10) (numbered 11));
    apply (bool_decide_unpack _); by vm_compute.
Defined.

(** Two records of different identities whose keys coincide: the last
    pass drops the older one. *)
Lemma key_clash_drops_record :
  identity dashLeft ≠ identity dashRight ∧
  key dashLeft = key dashRight ∧
  insert_all [dashLeft; dashRight] [] = [dashRight].
Proof. split; [by vm_compute|]. split; by vm_compute. Qed.

End HistoryClaimsExamples.

(** ** API adapter *)

Section AdapterClaims.
Import JS Adapter Samples.
Context {R : Runtime}.

Lemma languageName_catalog :
  Forall (λ lang, languageName (code lang) = name lang) languages.
Proof. unfold languages. repeat constructor. Qed.

Lemma find_none_not_in {A} (p : A → bool) (l : list A) :
  (∀ x, x ∈ l → p x = false) → List.find p l = None.
Proof.
  induction l as [|x l IHl]; intros Hall; simpl; [done|].
  rewrite (Hall x) by left. apply IHl. intros y Hy. apply Hall. by right.
Qed.

Lemma languageName_unknown c : c ∉ code <$> languages → languageName c = c.
Proof.
  intros Hc. unfold languageName. rewrite find_none_not_in; [done|].
  intros lang Hlang. apply bool_decide_eq_false. intros <-.
  by apply Hc, list_elem_of_fmap_2.
Qed.

(** C7: with source code [auto] the prompt asks for a translation into
    the name of the target language and mentions nothing else before the
    text; with any other source code it names source and target.  A name
    is the catalog's for a catalog code and the code itself otherwise. *)
Theorem prompt_names_languages :
  (∀ text toLang,
     prompt text "auto" toLang =
       "Translate the following text to " +:+ languageName toLang +:+
       ". Only return the translation, nothing else:" +:+ LF +:+ LF +:+ text) ∧
  (∀ text fromLang toLang,
     fromLang ≠ "auto" →
     prompt text fromLang toLang =
       "Translate the following text from " +:+ languageName fromLang +:+
       " to " +:+ languageName toLang +:+
       ". Only return the translation, nothing else:" +:+ LF +:+ LF +:+ text) ∧
  (∀ lang, lang ∈ languages → languageName (code lang) = name lang) ∧
  (∀ c, c ∉ code <$> languages → languageName c = c) ∧
  (∀ text, prompt text "auto" "ja" =
     "Translate the following text to Japanese. Only return the translation, nothing else:"
     +:+ LF +:+ LF +:+ text).
Proof.
  split; [|split; [|split; [|split]]].
  - intros text toLang. unfold prompt. by rewrite decide_True.
  - intros text fromLang toLang Hne. unfold prompt. by rewrite decide_False.
  - apply Forall_forall, languageName_catalog.
  - apply languageName_unknown.
  - done.
Qed.


Lemma lookup_property_absent k properties :
  k ∉ properties.*1 → lookup_property k properties = Undefined.
Proof.
  induction properties as [|[k' v] ps IHps]; intros Hk; simpl; [done|].
  rewrite fmap_cons, not_elem_of_cons in Hk. destruct Hk as [Hne Hk].
  rewrite decide_False by done. by apply IHps.
Qed.


Lemma value_of_response_shape r : response_shape (value_of_response r) r.
Proof.
  destruct r as [cs]. eexists _, _. split; [done|]. split; [done|]. simpl.
  apply Forall2_fmap_l, Forall_Forall2_diag, Forall_true. intros [[ps]].
  eexists. split; [done|]. eexists _, _. split; [done|]. split; [done|]. simpl.
  apply Forall2_fmap_l, Forall_Forall2_diag, Forall_true. intros [t].
  by eexists.
Qed.




End AdapterClaims.

Section AdapterClaimsExamples.
Import JS Adapter Samples.

Lemma prompt_names_languages_witness :
  prompt "good morning" "xx" "de" =
    "Translate the following text from xx to German. Only return the translation, nothing else:"
    +:+ LF +:+ LF +:+ "good morning".
Proof.
  rewrite (proj1 (proj2 prompt_names_languages) "good morning" "xx" "de")
    by (by vm_compute).
  by vm_compute.
Defined.


(** A body whose first candidate has a [content] without [parts] makes
    the validation itself throw a [TypeError]. *)
Lemma content_without_parts_throws_TypeError :
  read_translation contentWithoutParts =
    inl (TypeError "Cannot read properties of undefined (reading '0')").
Proof. done. Qed.


(** A body whose only candidate is an empty object is refused with the
    invalid-response error. *)
Lemma empty_candidate_is_invalid :
  reads emptyCandidate NoContent ∧
  snd (translateWithGemini None (answers emptyCandidate) "hello" "en" "fr" "key") =
    inl invalid_response.
Proof. split; [by eapply reads_no_content | done]. Qed.

End AdapterClaimsExamples.

(** ** Session controller *)

Section SessionClaims.
Import JS Adapter Session Samples.
Context {R : Runtime}.

Lemma translateWithGemini_without_key env fetch text fromLang toLang :
  translateWithGemini env fetch text fromLang toLang "" = ([], inl config_error).
Proof. done. Qed.

Lemma truthy_nonempty s : s ≠ "" → JSString.truthy s = true.
Proof. by destruct s. Qed.

Lemma handleTranslate_begin_without_key st :
  apiKey st = "" → trim (sourceText st) ≠ "" →
  handleTranslate_begin st =
    (setShowApiKeyInput true (setError "Please enter your Gemini API key first" st),
     None).
Proof.
  intros Hkey Htext. unfold handleTranslate_begin. simpl.
  by rewrite (truthy_nonempty _ Htext), Hkey.
Qed.

(** With a blank input [handleTranslate] returns at once. *)
Lemma handleTranslate_blank env fetch now st :
  trim (sourceText st) = "" → handleTranslate env fetch now st = (st, []).
Proof.
  intros Htext. unfold handleTranslate, handleTranslate_begin. simpl.
  by rewrite Htext.
Qed.

(** C5 (amended): for an input that is not blank, that is, not empty
    once trimmed, and an empty key: [translateWithGemini] would throw its
    key error without a request, and [handleTranslate] issues no request
    and changes nothing but the error message and the flag that opens the
    key prompt. *)
Theorem missing_key_blocks_translation env fetch now st :
  apiKey st = "" →
  trim (sourceText st) ≠ "" →
  translateWithGemini env fetch (sourceText st) (sourceLang st) (targetLang st)
    (apiKey st) = ([], inl config_error) ∧
  handleTranslate env fetch now st =
    (setShowApiKeyInput true (setError "Please enter your Gemini API key first" st),
     []) ∧
  translatedText (fst (handleTranslate env fetch now st)) = translatedText st ∧
  recentTranslations (fst (handleTranslate env fetch now st)) = recentTranslations st.
Proof.
  intros Hkey Htext.
  assert (handleTranslate env fetch now st =
            (setShowApiKeyInput true
               (setError "Please enter your Gemini API key first" st), [])) as Heq.
  { unfold handleTranslate. by rewrite handleTranslate_begin_without_key. }
  rewrite Heq, Hkey. done.
Qed.

Lemma handleTranslate_settle_failure env fetch now c st e :
  snd (translateWithGemini env fetch (c_sourceText c) (c_sourceLang c)
         (c_targetLang c) (c_apiKey c)) = inl e →
  fst (handleTranslate_settle env fetch now c st) =
    setIsTranslating false
      (setTranslatedText ""
         (setError (message_or e "Translation failed. Please try again.") st)).
Proof.
  unfold handleTranslate_settle.
  destruct (translateWithGemini _ _ _ _ _ _) as [requests outcome]. simpl.
  by intros ->.
Qed.

Lemma handleTranslate_begin_pending st :
  trim (sourceText st) ≠ "" → apiKey st ≠ "" →
  handleTranslate_begin st =
    (setError "" (setIsTranslating true st), Some (closure_of st)).
Proof.
  intros Htext Hkey. unfold handleTranslate_begin. simpl.
  by rewrite (truthy_nonempty _ Htext), (truthy_nonempty _ Hkey).
Qed.

(** C9 (amended): when the call to [translateWithGemini] throws, be it
    a transport or a protocol error, the handler stores the message of
    the error and empties the output, whatever happened to the state
    while the call was pending; an attempt without key stores its message
    and opens the key prompt, and leaves the output as it is; a change of
    the source text of at most 5000 characters empties the error
    message. *)
Theorem errors_are_shown env fetch now :
  (∀ c st e,
     snd (translateWithGemini env fetch (c_sourceText c) (c_sourceLang c)
            (c_targetLang c) (c_apiKey c)) = inl e →
     error (fst (handleTranslate_settle env fetch now c st)) =
       message_or e "Translation failed. Please try again." ∧
     translatedText (fst (handleTranslate_settle env fetch now c st)) = "" ∧
     isTranslating (fst (handleTranslate_settle env fetch now c st)) = false ∧
     recentTranslations (fst (handleTranslate_settle env fetch now c st)) =
       recentTranslations st) ∧
  (∀ st e,
     trim (sourceText st) ≠ "" → apiKey st ≠ "" →
     snd (translateWithGemini env fetch (sourceText st) (sourceLang st)
            (targetLang st) (apiKey st)) = inl e →
     error (fst (handleTranslate env fetch now st)) =
       message_or e "Translation failed. Please try again." ∧
     translatedText (fst (handleTranslate env fetch now st)) = "") ∧
  (∀ st,
     trim (sourceText st) ≠ "" → apiKey st = "" →
     error (fst (handleTranslate env fetch now st)) =
       "Please enter your Gemini API key first" ∧
     showApiKeyInput (fst (handleTranslate env fetch now st)) = true ∧
     translatedText (fst (handleTranslate env fetch now st)) = translatedText st) ∧
  (∀ text st,
     (text_length text ≤ 5000)%nat →
     error (handleSourceTextChange text st) = "" ∧
     sourceText (handleSourceTextChange text st) = text).
Proof.
  split; [|split; [|split]].
  - intros c st e Hfail. by rewrite (handleTranslate_settle_failure _ _ _ _ _ _ Hfail).
  - intros st e Htext Hkey Hfail. unfold handleTranslate.
    rewrite (handleTranslate_begin_pending _ Htext Hkey).
    by rewrite (handleTranslate_settle_failure _ _ _ (closure_of st) _ e).
  - intros st Htext Hkey. unfold handleTranslate.
    by rewrite (handleTranslate_begin_without_key _ Hkey Htext).
  - intros text st Hlen. unfold handleSourceTextChange.
    rewrite bool_decide_eq_true_2 by done.
    destruct (error st) eqn:Herr; simpl; by rewrite ?Herr.
Qed.

(** Start-up never replaces a code taken from the URL: the check against
    the catalog only repeats an assignment the initial state has made. *)
Lemma startup_languages env params localStorage parse :
  sourceLang (startup env params localStorage parse) =
    get_or (searchParams_get "sl" params) "en" ∧
  targetLang (startup env params localStorage parse) =
    get_or (searchParams_get "tl" params) "ja".
Proof.
  unfold startup, mountEffect, getUrlParams.
  set (sl := get_or (searchParams_get "sl" params) "en").
  set (tl := get_or (searchParams_get "tl" params) "ja").
  set (st0 := initialState env params).
  assert (sourceLang st0 = sl) as Hsl by done.
  assert (targetLang st0 = tl) as Htl by done.
  clearbody st0.
  destruct (JSString.truthy sl && inCatalog sl), (JSString.truthy tl && inCatalog tl),
    (localStorage !! "translation-history") as [saved|];
    try destruct (JSString.truthy saved); try destruct (parse saved); done.
Qed.

(** C8 (fails on the code): with [?sl=xx&tl=yy], two codes the catalog
    does not have, the session starts with source language [xx] and
    target language [yy], not with [en] and [ja]. *)
Theorem startup_keeps_unknown_codes env localStorage parse :
  inCatalog "xx" = false ∧ inCatalog "yy" = false ∧
  sourceLang (startup env [("sl", "xx"); ("tl", "yy")] localStorage parse) = "xx" ∧
  targetLang (startup env [("sl", "xx"); ("tl", "yy")] localStorage parse) = "yy".
Proof.
  split; [done|]. split; [done|].
  destruct (startup_languages env [("sl", "xx"); ("tl", "yy")] localStorage parse)
    as [-> ->]. done.
Qed.

Lemma newTranslation_from c result now :
  from (newTranslation c result now) ≠ "auto" ∧
  (c_sourceLang c = "auto" → from (newTranslation c result now) = "en") ∧
  (c_sourceLang c ≠ "auto" → from (newTranslation c result now) = c_sourceLang c).
Proof. simpl. case_decide; naive_solver. Qed.

Lemma updater_Forall (P : Translation → Prop) n prev :
  P n → Forall P prev → Forall P (History.updater n prev).
Proof.
  intros Hn Hprev.
  destruct (HistoryFacts.updater_rest n prev) as (rest & -> & Hsub).
  constructor; [done|]. rewrite Forall_forall in Hprev |- *.
  intros t Ht. apply Hprev. eapply elem_of_sublist; [exact Ht|].
  etrans; [exact Hsub | apply HistoryFacts.kept_sublist].
Qed.

Lemma handleTranslate_settle_success env fetch now c st result :
  snd (translateWithGemini env fetch (c_sourceText c) (c_sourceLang c)
         (c_targetLang c) (c_apiKey c)) = inr result →
  fst (handleTranslate_settle env fetch now c st) =
    setIsTranslating false
      (setRecentTranslations (History.updater (newTranslation c result now))
         (setTranslatedText result st)).
Proof.
  unfold handleTranslate_settle.
  destruct (translateWithGemini _ _ _ _ _ _) as [requests outcome]. simpl.
  by intros ->.
Qed.

Lemma handleTranslate_settle_no_auto env fetch now c st :
  Forall no_auto (recentTranslations st) →
  Forall no_auto (recentTranslations (fst (handleTranslate_settle env fetch now c st))).
Proof.
  intros Hinv. unfold handleTranslate_settle.
  destruct (translateWithGemini _ _ _ _ _ _) as [requests [e|result]]; simpl; [done|].
  apply updater_Forall; [apply newTranslation_from | done].
Qed.

Lemma handleTranslate_begin_history st :
  recentTranslations (fst (handleTranslate_begin st)) = recentTranslations st.
Proof.
  unfold handleTranslate_begin.
  destruct (negb _); [done|]. by destruct (negb _).
Qed.

Lemma step_no_auto env st ev :
  Forall no_auto (recentTranslations st) →
  Forall no_auto (recentTranslations (step env st ev)).
Proof.
  intros Hinv. destruct ev; simpl; try done.
  - unfold handleTranslate.
    pose proof (handleTranslate_begin_history st) as Hb.
    destruct (handleTranslate_begin st) as [st' [c|]]; simpl in *.
    + apply handleTranslate_settle_no_auto. by rewrite Hb.
    + by rewrite Hb.
  - by rewrite handleTranslate_begin_history.
  - by apply handleTranslate_settle_no_auto.
  - unfold handleSourceTextChange. case_bool_decide; [|done].
    by destruct (JSString.truthy (error st)).
  - unfold saveApiKey. by destruct (JSString.truthy _).
  - unfold swapLanguages. by destruct (_ && _).
  - by destruct (recentTranslations st !! index).
Qed.

(** C10: the record built after a successful translation holds the
    trimmed source text, and [en] in place of [auto] as its source code;
    a successful run of [handleTranslate] puts it at the head of the
    history and leaves the text of the input field as typed; so a history
    without a record of source code [auto] stays so under every sequence
    of events, in particular from the empty history of the initial
    state. *)
Theorem records_trimmed_and_never_auto env :
  (∀ c result now,
     source (newTranslation c result now) = trim (c_sourceText c) ∧
     from (newTranslation c result now) ≠ "auto" ∧
     (c_sourceLang c = "auto" → from (newTranslation c result now) = "en")) ∧
  (∀ fetch now st result,
     trim (sourceText st) ≠ "" → apiKey st ≠ "" →
     snd (translateWithGemini env fetch (sourceText st) (sourceLang st)
            (targetLang st) (apiKey st)) = inr result →
     head (recentTranslations (fst (handleTranslate env fetch now st))) =
       Some (newTranslation (closure_of st) result now) ∧
     sourceText (fst (handleTranslate env fetch now st)) = sourceText st) ∧
  (∀ events st,
     Forall (λ t, from t ≠ "auto") (recentTranslations st) →
     Forall (λ t, from t ≠ "auto") (recentTranslations (run env events st))) ∧
  (∀ events params,
     Forall (λ t, from t ≠ "auto")
       (recentTranslations (run env events (initialState env params)))).
Proof.
  assert (∀ events st,
            Forall no_auto (recentTranslations st) →
            Forall no_auto (recentTranslations (run env events st))) as Hrun.
  { intros events. unfold run.
    induction events as [|ev events IHev]; intros st Hinv; simpl; [done|].
    by apply IHev, step_no_auto. }
  split; [|split; [|split]].
  - intros c result now. split; [done|].
    destruct (newTranslation_from c result now) as (? & ? & _). done.
  - intros fetch now st result Htext Hkey Hok. unfold handleTranslate.
    rewrite (handleTranslate_begin_pending _ Htext Hkey).
    rewrite (handleTranslate_settle_success _ _ _ (closure_of st) _ result) by done.
    simpl. destruct (HistoryFacts.updater_rest
                       (newTranslation (closure_of st) result now)
                       (recentTranslations st)) as (rest & Heq & _).
    by rewrite Heq.
  - exact Hrun.
  - intros events params. by apply Hrun.
Qed.

End SessionClaims.

Section SessionClaimsExamples.
Import JS Adapter Session Samples.

(** C5 as stated fails: a non-empty input of white space only, without
    key, leaves the error message empty and the key prompt closed. *)
Lemma blank_input_reports_nothing :
  sourceText blankInput ≠ "" ∧ apiKey blankInput = "" ∧
  handleTranslate None (answers Null) 0 blankInput = (blankInput, []) ∧
  error blankInput = "" ∧ showApiKeyInput blankInput = false.
Proof. by vm_compute. Qed.

Lemma missing_key_blocks_translation_witness :
  handleTranslate None (answers Null) 0 staleOutput =
    (setShowApiKeyInput true
       (setError "Please enter your Gemini API key first" staleOutput), []).
Proof.
  apply (missing_key_blocks_translation None (answers Null) 0 staleOutput);
    by vm_compute.
Defined.

(** C9 as stated fails: the attempt without key sets the error message
    and leaves the earlier output in place. *)
Lemma missing_key_keeps_output :
  error (fst (handleTranslate None (answers Null) 0 staleOutput)) =
    "Please enter your Gemini API key first" ∧
  translatedText (fst (handleTranslate None (answers Null) 0 staleOutput)) = "bonjour".
Proof. by vm_compute. Qed.

Lemma errors_are_shown_witness :
  error (fst (handleTranslate None (answers (Obj [])) 0 autoSession)) =
    "Invalid response from Gemini API" ∧
  translatedText (fst (handleTranslate None (answers (Obj [])) 0 autoSession)) = "".
Proof.
  apply (proj1 (proj2 (errors_are_shown None (answers (Obj [])) 0))
           autoSession invalid_response); by vm_compute.
Defined.

Lemma records_trimmed_and_never_auto_witness :
  head (recentTranslations
          (fst (handleTranslate None (answers (oneText " Guten Morgen ")) 7 autoSession))) =
    Some (mkTranslation "good morning" "Guten Morgen" "en" "de" 7) ∧
  sourceText (fst (handleTranslate None (answers (oneText " Guten Morgen ")) 7 autoSession)) =
    "  good morning ".
Proof.
  assert (trim (sourceText autoSession) ≠ "") as Htext by (by vm_compute).
  assert (apiKey autoSession ≠ "") as Hkey by (by vm_compute).
  assert (snd (translateWithGemini None (answers (oneText " Guten Morgen "))
                 (sourceText autoSession) (sourceLang autoSession)
                 (targetLang autoSession) (apiKey autoSession)) = inr "Guten Morgen")
    as Hok by (by vm_compute).
  exact (proj1 (proj2 (records_trimmed_and_never_auto None))
           (answers (oneText " Guten Morgen ")) 7 autoSession "Guten Morgen"
           Htext Hkey Hok).
Defined.

End SessionClaimsExamples.

(** * Further properties *)

(** ** History cache *)

Section HistoryExtras.
Import History HistoryFacts Samples.
Context {R : Runtime}.

Lemma filter_all {A} (P : A → Prop) `{!∀ x, Decision (P x)} (l : list A) :
  Forall P l → filter P l = l.
Proof.
  induction 1 as [|x l Hx _ IHl]; [done|].
  by rewrite filter_cons_True, IHl.
Qed.

Lemma updater_rest_properties n prev :
  ∃ rest, updater n prev = n :: rest ∧
          rest `sublist_of` kept n prev ∧
          Forall (λ t, ¬ sameTranslation n t) rest ∧
          (length rest ≤ 9)%nat ∧
          NoDup (key <$> rest) ∧
          (∀ t, t ∈ rest → key t ≠ key n).
Proof.
  rewrite updater_cons. fold (kept n prev).
  set (rest := filter_seen {[key n]} (take 9 (kept n prev))).
  assert (rest `sublist_of` kept n prev) as Hsub.
  { etrans; [apply filter_seen_sublist | apply sublist_take]. }
  exists rest. split; [done|]. split; [done|]. split; [|split; [|split]].
  - pose proof (kept_not_same n prev) as Hns. rewrite Forall_forall in Hns |- *.
    intros t Ht. apply Hns. by eapply elem_of_sublist.
  - etrans; [apply sublist_length, filter_seen_sublist|]. rewrite length_take. lia.
  - apply filter_seen_keys.
  - intros t Ht. apply filter_seen_keys in Ht. by rewrite not_elem_of_singleton in Ht.
Qed.

Lemma updater_head n prev : head (updater n prev) = Some n.
Proof. by rewrite updater_cons. Qed.

Lemma updater_keys_NoDup n prev : NoDup (key <$> updater n prev).
Proof. rewrite updater_unfold. apply filter_seen_keys. Qed.

Lemma updater_duplicate_length n prev :
  Exists (sameTranslation n) prev → (length (updater n prev) ≤ length prev)%nat.
Proof.
  intros Hdup. destruct (updater_rest n prev) as (rest & -> & Hsub). simpl.
  apply sublist_length in Hsub.
  unfold kept, isDuplicate in Hsub. rewrite bool_decide_eq_true_2 in Hsub by done.
  apply Exists_exists in Hdup as (t & Ht & Hsame).
  assert (length (filter (λ t, ¬ sameTranslation n t) prev) < length prev)%nat
    by (apply (length_filter_lt _ _ t); [done | by intros Hn]).
  lia.
Qed.

(** X1: whatever the old list, the record just inserted is the first of
    the new list. *)
Theorem newest_first n prev : head (updater n prev) = Some n.
Proof. apply updater_head. Qed.

(** X2: the new list is the new record followed by old records in their
    old order; nothing else gets in. *)
Theorem updater_sublist n prev : updater n prev `sublist_of` n :: prev.
Proof.
  destruct (updater_rest n prev) as (rest & -> & Hsub).
  apply sublist_skip. etrans; [exact Hsub | apply kept_sublist].
Qed.

(** X3: whatever the old list, the keys [source-target-from-to] of the new
    list are pairwise different. *)
Theorem updater_keys_unique n prev : NoDup (key <$> updater n prev).
Proof. apply updater_keys_NoDup. Qed.

(** X4: a list whose identities are pairwise different stays so under an
    insertion, and so does every list built from the empty one. *)
Theorem identities_stay_unique :
  (∀ n prev, NoDup (identity <$> prev) → NoDup (identity <$> updater n prev)) ∧
  (∀ news, NoDup (identity <$> insert_all news [])).
Proof.
  split; [apply updater_unique_identity|].
  assert (∀ news prev, NoDup (identity <$> prev) →
                       NoDup (identity <$> insert_all news prev)) as Hall.
  { induction news as [|n news IHnews]; intros prev Hnd; [done|].
    apply IHnews. by apply updater_unique_identity. }
  intros news. apply Hall. constructor.
Qed.

(** X5: an insertion adds at most one record, and none when the identity
    of the new record is already in the list. *)
Theorem duplicate_never_grows n prev :
  (length (updater n prev) ≤ S (length prev))%nat ∧
  (Exists (sameTranslation n) prev → (length (updater n prev) ≤ length prev)%nat).
Proof.
  split; [|apply updater_duplicate_length].
  destruct (updater_rest n prev) as (rest & -> & Hsub). simpl.
  apply le_n_S, sublist_length. etrans; [exact Hsub | apply kept_sublist].
Qed.

(** X6: inserting a record and then a record with the same four fields
    (a later timestamp, say) gives what inserting the second one alone
    gives; in particular inserting a record twice is inserting it once. *)
Theorem same_fields_refresh n n' prev :
  source n' = source n → target n' = target n → from n' = from n → to n' = to n →
  updater n' (updater n prev) = updater n' prev.
Proof.
  destruct n as [s t f o ts], n' as [s' t' f' o' ts']. simpl.
  intros -> -> -> ->.
  set (n := mkTranslation s t f o ts). set (n' := mkTranslation s t f o ts').
  destruct (updater_rest_properties n prev)
    as (rest & Heq & Hsub & Hns & Hlen & Hnd & Hkey).
  assert (updater n' prev = n' :: rest) as Heq'.
  { rewrite updater_cons in Heq |- *. injection Heq as Heq. by rewrite <- Heq. }
  rewrite Heq, Heq'. rewrite updater_cons.
  assert (isDuplicate n' (n :: rest) = true) as ->.
  { apply bool_decide_eq_true, Exists_cons_hd. done. }
  rewrite filter_cons_False by (intros Hn; by apply Hn).
  rewrite (filter_all (λ t, ¬ sameTranslation n' t)) by exact Hns.
  rewrite take_ge by done.
  f_equal. apply filter_seen_id; [done|].
  intros x Hx. rewrite not_elem_of_singleton. by apply Hkey.
Qed.

End HistoryExtras.

Section HistoryExtrasExamples.
Import History HistoryFacts Samples.

Lemma identities_stay_unique_witness :
  NoDup (identity <$> updater lowerCase [goodbye; upperCase]).
Proof.
  apply (proj1 identities_stay_unique lowerCase [goodbye; upperCase]).
  apply (bool_decide_unpack _). by vm_compute.
Defined.

Lemma duplicate_never_grows_witness :
  (length (updater upperCase [goodbye; lowerCase]) ≤ length [goodbye; lowerCase])%nat.
Proof.
  apply (proj2 (duplicate_never_grows upperCase [goodbye; lowerCase])).
  apply Exists_cons_tl, Exists_cons_hd. by vm_compute.
Defined.

Lemma same_fields_refresh_witness :
  updater (recordA 9) (updater (recordA 1) [recordB 2]) = updater (recordA 9) [recordB 2].
Proof.
  apply (same_fields_refresh (recordA 1) (recordA 9) [recordB 2]); reflexivity.
Defined.

End HistoryExtrasExamples.

(** ** API adapter *)

Section AdapterExtras.
Import JS Adapter Effects Ends MoreSamples.
Context {R : Runtime}.

Lemma read_translation_trimmed data result :
  read_translation data = inr result → ∃ raw, result = trim raw.
Proof.
  unfold read_translation. intros Hread.
  repeat match type of Hread with
         | context [mbind _ ?m] => destruct m as [?|?]; simpl in Hread; [done|]
         | context [if ?b then _ else _] => destruct b; simpl in Hread; [done|]
         end.
  match type of Hread with call_trim ?v = _ => destruct v; try done end.
  injection Hread as <-. by eexists.
Qed.

(** X7: [translateWithGemini] issues at most one request, none without a
    key; a request goes by POST to the endpoint with the key it was given
    (the key of the build environment is never sent) and carries the
    prompt made from the text as given. *)
Theorem requests_carry_given_key env fetch text fromLang toLang apiKey :
  (length (fst (translateWithGemini env fetch text fromLang toLang apiKey)) ≤ 1)%nat ∧
  (apiKey = "" → fst (translateWithGemini env fetch text fromLang toLang apiKey) = []) ∧
  (∀ req,
     req ∈ fst (translateWithGemini env fetch text fromLang toLang apiKey) →
     url req = endpoint +:+ apiKey ∧ method req = "POST" ∧
     prompt_text req = prompt text fromLang toLang).
Proof.
  destruct apiKey as [|a k]; simpl.
  - split; [lia|]. split; [done|]. by intros req ?%elem_of_nil.
  - split; [lia|]. split; [done|]. by intros req ->%list_elem_of_singleton.
Qed.

(** X8: an answer whose status is not ok never yields a translation.
    The error reads [Gemini API error: <status> - <message>], where the
    message is the non-empty string [error.message] of the body, and
    [Unknown error] when the body is not JSON or is an object without
    [error]. *)
Theorem failed_status_throws env fetch text fromLang toLang apiKey response :
  apiKey ≠ "" →
  fetch (request env text fromLang toLang apiKey) = Resolved response →
  ok response = false →
  (∃ e, snd (translateWithGemini env fetch text fromLang toLang apiKey) = inl e) ∧
  (((∃ e, json response = inl e) ∨
    ∃ properties, json response = inr (Obj properties) ∧ "error" ∉ properties.*1) →
   snd (translateWithGemini env fetch text fromLang toLang apiKey) =
     inl (Error ("Gemini API error: " +:+ pretty (status response) +:+
                 " - Unknown error"))) ∧
  (∀ properties details m,
     json response = inr (Obj properties) →
     lookup_property "error" properties = Obj details →
     lookup_property "message" details = Str m → m ≠ "" →
     snd (translateWithGemini env fetch text fromLang toLang apiKey) =
       inl (Error ("Gemini API error: " +:+ pretty (status response) +:+
                   " - " +:+ m))).
Proof.
  intros Hkey Hfetch Hok.
  assert (snd (translateWithGemini env fetch text fromLang toLang apiKey) =
            inl (transport_error response)) as ->.
  { unfold translateWithGemini. destruct apiKey; [done|]. simpl.
    by rewrite Hfetch, Hok. }
  split; [by eexists|]. split.
  - intros [[e0 Hnone] | (properties & Hsome & Habsent)]; unfold transport_error.
    + by rewrite Hnone.
    + rewrite Hsome. simpl. by rewrite lookup_property_absent.
  - intros properties details m Hsome Herr Hmsg Hm. unfold transport_error.
    rewrite Hsome. simpl. rewrite Herr. simpl. rewrite Hmsg. simpl.
    by destruct m.
Qed.

(** X9: whatever the network answers, a text returned by
    [translateWithGemini] neither starts nor ends with white space. *)
Theorem translation_has_clean_ends env fetch text fromLang toLang apiKey result :
  snd (translateWithGemini env fetch text fromLang toLang apiKey) = inr result →
  clean_ends result ∧ trim result = result.
Proof.
  unfold translateWithGemini. destruct (negb (JSString.truthy apiKey)); [done|]. simpl.
  destruct (fetch _) as [e|response]; [done|].
  destruct (negb (ok response)); [done|].
  destruct (json response) as [e|data]; [done|].
  intros (raw & ->)%read_translation_trimmed.
  split; [apply trim_clean_ends | apply trim_idempotent].
Qed.

End AdapterExtras.

Section AdapterExtrasExamples.
Import JS Adapter Effects Ends MoreSamples.

Lemma requests_carry_given_key_witness :
  fst (translateWithGemini (Some "build-key") (answers Null) "hello" "en" "fr" "") = [].
Proof.
  by apply (proj1 (proj2 (requests_carry_given_key (Some "build-key") (answers Null)
                            "hello" "en" "fr" ""))).
Defined.

Lemma failed_status_throws_witness :
  snd (translateWithGemini None (λ _, Resolved notFound) "hello" "en" "fr" "key") =
    inl (Error "Gemini API error: 404 - model not found").
Proof.
  apply (proj2 (proj2 (failed_status_throws None (λ _, Resolved notFound)
                         "hello" "en" "fr" "key" notFound
                         ltac:(done) ltac:(reflexivity) ltac:(reflexivity)))
           [("error", Obj [("code", Num 404); ("message", Str "model not found")])]
           [("code", Num 404); ("message", Str "model not found")]
           "model not found"); by vm_compute.
Defined.

Lemma translation_has_clean_ends_witness :
  clean_ends "bonjour" ∧ trim "bonjour" = "bonjour".
Proof.
  apply (translation_has_clean_ends None (answers (Samples.oneText "  bonjour "))
           "hello" "en" "fr" "key" "bonjour").
  reflexivity.
Defined.

End AdapterExtrasExamples.

(** ** Session controller *)

Section SessionExtras.
Import JS Adapter Session Effects Samples MoreSamples.
Context {R : Runtime}.

Lemma nonempty_truthy s : JSString.truthy s = true ↔ s ≠ "".
Proof. by destruct s. Qed.

Lemma empty_falsy s : JSString.truthy s = false ↔ s = "".
Proof. by destruct s. Qed.

Lemma handleTranslate_pending env fetch now st :
  trim (sourceText st) ≠ "" → apiKey st ≠ "" →
  handleTranslate env fetch now st =
    handleTranslate_settle env fetch now (closure_of st)
      (setError "" (setIsTranslating true st)).
Proof.
  intros Htext Hkey. unfold handleTranslate.
  by rewrite (handleTranslate_begin_pending _ Htext Hkey).
Qed.

Lemma handleTranslate_settle_requests env fetch now c st :
  c_apiKey c ≠ "" →
  snd (handleTranslate_settle env fetch now c st) =
    [request env (c_sourceText c) (c_sourceLang c) (c_targetLang c) (c_apiKey c)].
Proof.
  intros Hkey. unfold handleTranslate_settle, translateWithGemini.
  apply nonempty_truthy in Hkey. rewrite Hkey. simpl.
  by destruct (match fetch _ with Rejected _ => _ | Resolved _ => _ end).
Qed.

(** X10: a run of [handleTranslate] sends one request, with the text as
    typed (not trimmed), when the text is not blank and the key is not
    empty; otherwise it sends none. *)
Theorem one_request_per_run env fetch now st :
  snd (handleTranslate env fetch now st) =
    if JSString.truthy (trim (sourceText st)) && JSString.truthy (apiKey st)
    then [request env (sourceText st) (sourceLang st) (targetLang st) (apiKey st)]
    else [].
Proof.
  destruct (JSString.truthy (trim (sourceText st))) eqn:Htext; simpl.
  - destruct (JSString.truthy (apiKey st)) eqn:Hkey.
    + apply nonempty_truthy in Htext, Hkey.
      rewrite handleTranslate_pending by done.
      by rewrite handleTranslate_settle_requests.
    + unfold handleTranslate, handleTranslate_begin. simpl. by rewrite Htext, Hkey.
  - unfold handleTranslate, handleTranslate_begin. simpl. by rewrite Htext.
Qed.

(** X11: a run that reaches the call ends with the spinner off and with
    the error message or the output empty; on success the output is the
    returned text and the error message is empty.  The text of the input
    field, the languages and the key are as before. *)
Theorem completed_run_state env fetch now st :
  trim (sourceText st) ≠ "" → apiKey st ≠ "" →
  isTranslating (fst (handleTranslate env fetch now st)) = false ∧
  (error (fst (handleTranslate env fetch now st)) = "" ∨
   translatedText (fst (handleTranslate env fetch now st)) = "") ∧
  (∀ result,
     snd (translateWithGemini env fetch (sourceText st) (sourceLang st)
            (targetLang st) (apiKey st)) = inr result →
     translatedText (fst (handleTranslate env fetch now st)) = result ∧
     error (fst (handleTranslate env fetch now st)) = "") ∧
  sourceText (fst (handleTranslate env fetch now st)) = sourceText st ∧
  sourceLang (fst (handleTranslate env fetch now st)) = sourceLang st ∧
  targetLang (fst (handleTranslate env fetch now st)) = targetLang st ∧
  apiKey (fst (handleTranslate env fetch now st)) = apiKey st.
Proof.
  intros Htext Hkey. rewrite handleTranslate_pending by done.
  unfold handleTranslate_settle. simpl.
  destruct (translateWithGemini _ _ _ _ _ _) as [requests [e|result]]; simpl.
  - split; [done|]. split; [by right|]. done.
  - split; [done|]. split; [by left|]. split; [by intros ? [= <-]|done].
Qed.

(** X12: when the debounce timer fires without key or on a blank text,
    the output is emptied and nothing else happens: no request, no error
    message, the key prompt stays as it is.  Otherwise the call begins. *)
Theorem timer_without_key_clears_output env fetch now st :
  (apiKey st = "" ∨ trim (sourceText st) = "" →
   autoTranslate env fetch now st = (setTranslatedText "" st, [])) ∧
  (trim (sourceText st) ≠ "" → apiKey st ≠ "" →
   autoTranslate env fetch now st =
     handleTranslate_settle env fetch now (closure_of st)
       (setError "" (setIsTranslating true st))).
Proof.
  unfold autoTranslate. split.
  - intros [Hkey | Htext].
    + apply empty_falsy in Hkey. rewrite Hkey. by rewrite andb_false_r.
    + apply empty_falsy in Htext. by rewrite Htext.
  - intros Htext Hkey. rewrite <- handleTranslate_pending by done.
    apply nonempty_truthy in Htext, Hkey. by rewrite Htext, Hkey.
Qed.

(** X13: a change to a text longer than 5000 characters leaves the whole
    state as it is, so a source text within 5000 characters stays within
    5000 characters under any change. *)
Theorem source_text_bound text st :
  ((5000 < text_length text)%nat → handleSourceTextChange text st = st) ∧
  ((text_length (sourceText st) ≤ 5000)%nat →
   (text_length (sourceText (handleSourceTextChange text st)) ≤ 5000)%nat).
Proof.
  unfold handleSourceTextChange. split.
  - intros Hlong. by rewrite bool_decide_eq_false_2 by lia.
  - intros Hst. case_bool_decide; [|done].
    by destruct (JSString.truthy (error st)).
Qed.

Lemma swapLanguages_enabled st :
  sourceLang st ≠ "auto" → translatedText st ≠ "" →
  swapLanguages st =
    mkState (translatedText st) (sourceText st) (targetLang st) (sourceLang st)
      (isTranslating st) (recentTranslations st) (apiKey st) (showApiKeyInput st)
      (error st).
Proof.
  intros Hlang Hout%nonempty_truthy. unfold swapLanguages.
  by rewrite bool_decide_eq_false_2, Hout.
Qed.

(** X14: swapping exchanges the languages and the two texts and touches
    nothing else; it does nothing when the source language is [auto] or
    the output is empty; swapping twice restores the state when the swap
    is enabled both times. *)
Theorem swap_languages st :
  (sourceLang st = "auto" ∨ translatedText st = "" → swapLanguages st = st) ∧
  (sourceLang st ≠ "auto" → translatedText st ≠ "" →
   swapLanguages st =
     mkState (translatedText st) (sourceText st) (targetLang st) (sourceLang st)
       (isTranslating st) (recentTranslations st) (apiKey st) (showApiKeyInput st)
       (error st)) ∧
  (sourceLang st ≠ "auto" → translatedText st ≠ "" →
   targetLang st ≠ "auto" → sourceText st ≠ "" →
   swapLanguages (swapLanguages st) = st).
Proof.
  pose proof (swapLanguages_enabled st) as Hswap.
  split; [|split; [done|]].
  - unfold swapLanguages. intros [Hauto | Hout].
    + by rewrite bool_decide_eq_true_2.
    + rewrite Hout. by rewrite andb_false_r.
  - intros Hlang Hout Hlang' Hin. rewrite (Hswap Hlang Hout).
    unfold swapLanguages. simpl. apply nonempty_truthy in Hin.
    rewrite bool_decide_eq_false_2, Hin by done. by destruct st.
Qed.

End SessionExtras.

Section SessionExtrasExamples.
Import JS Adapter Session Effects Samples MoreSamples.

Lemma completed_run_state_witness :
  translatedText
    (fst (handleTranslate None (answers (oneText " Guten Morgen ")) 7 autoSession)) =
    "Guten Morgen" ∧
  error (fst (handleTranslate None (answers (oneText " Guten Morgen ")) 7 autoSession)) = "".
Proof.
  assert (trim (sourceText autoSession) ≠ "") as Htext by (by vm_compute).
  assert (apiKey autoSession ≠ "") as Hkey by (by vm_compute).
  apply (proj1 (proj2 (proj2 (completed_run_state None
                                (answers (oneText " Guten Morgen ")) 7 autoSession
                                Htext Hkey)))
           "Guten Morgen").
  reflexivity.
Defined.

Lemma timer_without_key_clears_output_witness :
  autoTranslate None (answers Null) 0 staleOutput = (setTranslatedText "" staleOutput, []).
Proof.
  apply (proj1 (timer_without_key_clears_output None (answers Null) 0 staleOutput)).
  by left.
Defined.

Lemma source_text_bound_witness :
  (text_length (sourceText (handleSourceTextChange "hello there" staleOutput)) ≤ 5000)%nat.
Proof.
  apply (proj2 (source_text_bound "hello there" staleOutput)). simpl. lia.
Defined.

Lemma swap_languages_witness : swapLanguages (swapLanguages frenchGerman) = frenchGerman.
Proof. by apply (proj2 (proj2 (swap_languages frenchGerman))). Defined.

End SessionExtrasExamples.

(** ** History in the controller *)

Section ControllerHistory.
Import JS Adapter Session Effects Samples MoreSamples.
Context {R : Runtime}.

Lemma handleTranslate_settle_history env fetch now c st :
  recentTranslations (fst (handleTranslate_settle env fetch now c st)) =
    recentTranslations st ∨
  ∃ n, recentTranslations (fst (handleTranslate_settle env fetch now c st)) =
         History.updater n (recentTranslations st).
Proof.
  unfold handleTranslate_settle.
  destruct (translateWithGemini _ _ _ _ _ _) as [requests [e|result]]; simpl;
    [by left | right; by eexists].
Qed.

(** An event leaves the history alone, empties it, or inserts a record. *)
Lemma step_history env st ev :
  recentTranslations (step env st ev) = recentTranslations st ∨
  recentTranslations (step env st ev) = [] ∨
  ∃ n, recentTranslations (step env st ev) = History.updater n (recentTranslations st).
Proof.
  destruct ev; simpl; try by left.
  - unfold handleTranslate.
    pose proof (handleTranslate_begin_history st) as Hb.
    destruct (handleTranslate_begin st) as [st' [c|]]; simpl in *; [|by left].
    rewrite <- Hb.
    destruct (handleTranslate_settle_history env fetch now c st') as [->| [n ->]];
      [by left | right; right; by eexists].
  - left. apply handleTranslate_begin_history.
  - destruct (handleTranslate_settle_history env fetch now c st) as [->| [n ->]];
      [by left | right; right; by eexists].
  - left. unfold handleSourceTextChange. case_bool_decide; [|done].
    by destruct (JSString.truthy (error st)).
  - left. unfold saveApiKey. by destruct (JSString.truthy _).
  - left. unfold swapLanguages. by destruct (_ && _).
  - by right; left.
  - left. by destruct (recentTranslations st !! index).
Qed.

(** X15: a history of at most ten records with pairwise different
    identities and keys keeps the three properties under every sequence
    of events of the controller, calls that settle late included. *)
Theorem controller_keeps_history_invariants env events st :
  (length (recentTranslations st) ≤ 10)%nat →
  NoDup (History.identity <$> recentTranslations st) →
  NoDup (History.key <$> recentTranslations st) →
  (length (recentTranslations (run env events st)) ≤ 10)%nat ∧
  NoDup (History.identity <$> recentTranslations (run env events st)) ∧
  NoDup (History.key <$> recentTranslations (run env events st)).
Proof.
  unfold run. revert st.
  induction events as [|ev events IHev]; intros st Hlen Hid Hkey; simpl; [done|].
  destruct (step_history env st ev) as [Heq | [Heq | [n Heq]]];
    apply IHev; rewrite Heq.
  - done.
  - done.
  - done.
  - simpl. lia.
  - apply NoDup_nil_2.
  - apply NoDup_nil_2.
  - apply HistoryFacts.updater_length.
  - by apply HistoryFacts.updater_unique_identity.
  - apply updater_keys_NoDup.
Qed.

(** X16: taking a record back from the history and translating again to
    the same text does not lengthen the history: the record comes back in
    front with the new time.  The record's source is trimmed and its source
    code is not [auto], as for every record the handler makes. *)
Theorem reuse_does_not_grow_history env fetch now st index t :
  recentTranslations st !! index = Some t →
  from t ≠ "auto" → trim (source t) = source t → source t ≠ "" → apiKey st ≠ "" →
  snd (translateWithGemini env fetch (source t) (from t) (to t) (apiKey st)) =
    inr (target t) →
  head (recentTranslations
          (fst (handleTranslate env fetch now (step env st (UseRecent index))))) =
    Some (mkTranslation (source t) (target t) (from t) (to t) now) ∧
  (length (recentTranslations
             (fst (handleTranslate env fetch now (step env st (UseRecent index)))))
   ≤ length (recentTranslations st))%nat.
Proof.
  intros Hlookup Hfrom Htrim Hsource Hkey Hok. simpl. rewrite Hlookup.
  set (st1 := handleRecentTranslation t st).
  assert (trim (sourceText st1) ≠ "") as Htext by (simpl; by rewrite Htrim).
  rewrite handleTranslate_pending by done.
  rewrite (handleTranslate_settle_success _ _ _ _ _ (target t)) by done. simpl.
  assert (newTranslation (closure_of st1) (target t) now =
            mkTranslation (source t) (target t) (from t) (to t) now) as ->.
  { unfold newTranslation. simpl. by rewrite Htrim, decide_False. }
  split; [apply updater_head|].
  apply updater_duplicate_length, Exists_exists. exists t.
  split; [by eapply list_elem_of_lookup_2 | done].
Qed.

End ControllerHistory.

Section ControllerHistoryExamples.
Import JS Adapter Session Effects Samples MoreSamples.

Lemma controller_keeps_history_invariants_witness :
  (length (recentTranslations
             (run None [Translate (answers (oneText "Guten Morgen")) 5; Swap] autoSession))
   ≤ 10)%nat.
Proof.
  apply (controller_keeps_history_invariants None
           [Translate (answers (oneText "Guten Morgen")) 5; Swap] autoSession).
  - simpl. lia.
  - constructor.
  - constructor.
Defined.

Lemma reuse_does_not_grow_history_witness :
  (length (recentTranslations
             (fst (handleTranslate None (answers (oneText "bonjour")) 9
                     (step None withHistory (UseRecent 1)))))
   ≤ length (recentTranslations withHistory))%nat.
Proof.
  apply (reuse_does_not_grow_history None (answers (oneText "bonjour")) 9 withHistory 1
           (recordA 1)); by vm_compute.
Defined.

End ControllerHistoryExamples.

(** ** URL and storage *)

Section UrlAndStorage.
Import JS Adapter Session Effects Samples MoreSamples.
Context {R : Runtime}.

Lemma get_delete_eq k params : searchParams_get k (searchParams_delete k params) = None.
Proof.
  unfold searchParams_delete.
  induction params as [|[k' v'] rest IHrest]; [done|].
  rewrite filter_cons. simpl. case_decide as Hk; [|done].
  simpl. by rewrite decide_False.
Qed.

Lemma get_delete_ne k k' params :
  k ≠ k' → searchParams_get k' (searchParams_delete k params) = searchParams_get k' params.
Proof.
  intros Hne. unfold searchParams_delete.
  induction params as [|[k0 v0] rest IHrest]; [done|].
  rewrite filter_cons. simpl. case_decide as Hk; simpl.
  - by rewrite IHrest.
  - simpl in Hk. subst k0. by rewrite decide_False.
Qed.

Lemma get_set_eq k v params : searchParams_get k (searchParams_set k v params) = Some v.
Proof.
  induction params as [|[k' v'] rest IHrest]; simpl.
  - by rewrite decide_True.
  - case_decide as Hk; simpl; [by rewrite decide_True | by rewrite decide_False].
Qed.

Lemma get_set_ne k k' v params :
  k ≠ k' → searchParams_get k' (searchParams_set k v params) = searchParams_get k' params.
Proof.
  intros Hne. induction params as [|[k0 v0] rest IHrest]; simpl.
  - by rewrite decide_False.
  - case_decide as Hk; simpl.
    + subst k0. rewrite !decide_False by done. by apply get_delete_ne.
    + by rewrite IHrest.
Qed.

Lemma updateUrlParams_languages sl tl params :
  tl ≠ "" →
  searchParams_get "sl" (updateUrlParams sl tl params) =
    (if decide (sl = "" ∨ sl = "auto") then None else Some sl) ∧
  searchParams_get "tl" (updateUrlParams sl tl params) = Some tl.
Proof.
  intros Htl%nonempty_truthy. unfold updateUrlParams. rewrite Htl.
  split; [|apply get_set_eq].
  rewrite get_set_ne by done.
  case_decide as Hsl.
  - destruct Hsl as [-> | ->]; simpl; apply get_delete_eq.
  - assert (sl ≠ "") as Hne%nonempty_truthy by tauto.
    assert (sl ≠ "auto") as Hauto by tauto. rewrite Hne. simpl.
    rewrite bool_decide_eq_false_2 by done. simpl. apply get_set_eq.
Qed.

Lemma getUrlParams_updateUrlParams sl tl params :
  sl ≠ "" → sl ≠ "auto" → tl ≠ "" →
  getUrlParams (updateUrlParams sl tl params) = (sl, tl).
Proof.
  intros Hsl Hauto Htl.
  destruct (updateUrlParams_languages sl tl params Htl) as [Hgs Hgt].
  rewrite decide_False in Hgs by tauto.
  unfold getUrlParams. rewrite Hgs, Hgt. simpl. unfold or_else.
  apply nonempty_truthy in Hsl, Htl. by rewrite Hsl, Htl.
Qed.

(** X17: a source code other than [auto] and a target code, both
    non-empty, written to the URL by [updateUrlParams], are the codes
    [getUrlParams] reads back and the codes a session opened at that URL
    starts with. *)
Theorem url_round_trip env sl tl params localStorage parse :
  sl ≠ "" → sl ≠ "auto" → tl ≠ "" →
  getUrlParams (updateUrlParams sl tl params) = (sl, tl) ∧
  sourceLang (startup env (updateUrlParams sl tl params) localStorage parse) = sl ∧
  targetLang (startup env (updateUrlParams sl tl params) localStorage parse) = tl.
Proof.
  intros Hsl Hauto Htl.
  pose proof (getUrlParams_updateUrlParams sl tl params Hsl Hauto Htl) as Hget.
  split; [done|].
  destruct (startup_languages env (updateUrlParams sl tl params) localStorage parse)
    as [-> ->].
  unfold getUrlParams in Hget. by injection Hget.
Qed.

(** X18: the source code [auto] is not written to the URL, it removes
    the parameter [sl]; a session opened at that URL starts with source
    language [en]. *)
Theorem auto_is_not_kept_in_url env tl params localStorage parse :
  tl ≠ "" →
  searchParams_get "sl" (updateUrlParams "auto" tl params) = None ∧
  sourceLang (startup env (updateUrlParams "auto" tl params) localStorage parse) = "en" ∧
  targetLang (startup env (updateUrlParams "auto" tl params) localStorage parse) = tl.
Proof.
  intros Htl.
  destruct (updateUrlParams_languages "auto" tl params Htl) as [Hgs Hgt].
  rewrite decide_True in Hgs by (by right).
  split; [done|].
  destruct (startup_languages env (updateUrlParams "auto" tl params) localStorage parse)
    as [-> ->].
  rewrite Hgs, Hgt. simpl. unfold or_else.
  apply nonempty_truthy in Htl. by rewrite Htl.
Qed.

(** X19: [updateUrlParams] leaves every parameter other than [sl] and
    [tl] as it finds it. *)
Theorem other_parameters_are_kept sl tl params k :
  k ≠ "sl" → k ≠ "tl" →
  searchParams_get k (updateUrlParams sl tl params) = searchParams_get k params.
Proof.
  intros Hsl Htl. unfold updateUrlParams.
  assert (searchParams_get k
            (if JSString.truthy sl && negb (bool_decide (sl = "auto"))
             then searchParams_set "sl" sl params
             else searchParams_delete "sl" params) = searchParams_get k params) as Hfirst.
  { destruct (_ && _); [by apply get_set_ne | by apply get_delete_ne]. }
  destruct (JSString.truthy tl); [|done].
  by rewrite get_set_ne.
Qed.

(** X20: after an enabled swap the URL effect writes the exchanged
    codes: the former target as [sl], the former source as [tl]. *)
Theorem swap_is_reflected_in_url st params :
  sourceLang st ≠ "auto" → sourceLang st ≠ "" →
  targetLang st ≠ "auto" → targetLang st ≠ "" →
  translatedText st ≠ "" →
  getUrlParams (urlEffect (swapLanguages st) params) = (targetLang st, sourceLang st).
Proof.
  intros Hs1 Hs2 Ht1 Ht2 Hout.
  rewrite (swapLanguages_enabled st Hs1 Hout). unfold urlEffect. simpl.
  by apply getUrlParams_updateUrlParams.
Qed.

End UrlAndStorage.

Section UrlAndStorageExamples.
Import JS Adapter Session Effects Samples MoreSamples.

Lemma url_round_trip_witness :
  getUrlParams (updateUrlParams "de" "fr" campaignQuery) = ("de", "fr").
Proof.
  by apply (url_round_trip None "de" "fr" campaignQuery ∅ (λ _, None)).
Defined.

Lemma auto_is_not_kept_in_url_witness :
  sourceLang (startup None (updateUrlParams "auto" "de" campaignQuery) ∅ (λ _, None)) = "en".
Proof.
  by apply (auto_is_not_kept_in_url None "de" campaignQuery ∅ (λ _, None)).
Defined.

Lemma other_parameters_are_kept_witness :
  searchParams_get "utm" (updateUrlParams "de" "fr" campaignQuery) =
    searchParams_get "utm" campaignQuery.
Proof. by apply (other_parameters_are_kept "de" "fr" campaignQuery "utm"). Defined.

Lemma swap_is_reflected_in_url_witness :
  getUrlParams (urlEffect (swapLanguages frenchGerman) campaignQuery) = ("de", "fr").
Proof. by apply (swap_is_reflected_in_url frenchGerman campaignQuery). Defined.

End UrlAndStorageExamples.

Section Storage.
Import JS Adapter Session Effects Samples MoreSamples.
Context {R : Runtime}.

Lemma startup_apiKey env params localStorage parse :
  apiKey (startup env params localStorage parse) =
    get_or (localStorage !! "gemini-api-key") "" ∧
  showApiKeyInput (startup env params localStorage parse) =
    negb (JSString.truthy (get_or (localStorage !! "gemini-api-key") "")).
Proof.
  unfold startup, mountEffect. destruct (getUrlParams params) as [sl tl].
  destruct (JSString.truthy sl && inCatalog sl), (JSString.truthy tl && inCatalog tl),
    (localStorage !! "translation-history") as [saved|];
    try destruct (JSString.truthy saved); try destruct (parse saved); done.
Qed.

Lemma startup_history env params localStorage parse :
  recentTranslations (startup env params localStorage parse) =
    match localStorage !! "translation-history" with
    | Some saved =>
        if JSString.truthy saved then default [] (parse saved) else []
    | None => []
    end.
Proof.
  unfold startup, mountEffect. destruct (getUrlParams params) as [sl tl].
  destruct (JSString.truthy sl && inCatalog sl), (JSString.truthy tl && inCatalog tl),
    (localStorage !! "translation-history") as [saved|];
    try destruct (JSString.truthy saved); try destruct (parse saved); done.
Qed.

(** X21: a non-empty key saved by the key effect is the key of the next
    session, which starts with the key prompt closed; an empty key is not
    saved, so the stored key stays and comes back at the next start. *)
Theorem api_key_persists env params localStorage parse st :
  (apiKey st ≠ "" →
   apiKey (startup env params (saveApiKeyEffect st localStorage) parse) = apiKey st ∧
   showApiKeyInput (startup env params (saveApiKeyEffect st localStorage) parse) = false) ∧
  (apiKey st = "" →
   saveApiKeyEffect st localStorage = localStorage ∧
   apiKey (startup env params (saveApiKeyEffect st localStorage) parse) =
     get_or (localStorage !! "gemini-api-key") "").
Proof.
  split.
  - intros Hkey%nonempty_truthy.
    destruct (startup_apiKey env params (saveApiKeyEffect st localStorage) parse)
      as [-> ->].
    unfold saveApiKeyEffect. rewrite Hkey, lookup_insert_eq. simpl.
    unfold or_else. rewrite Hkey. by rewrite Hkey.
  - intros Hkey%empty_falsy.
    assert (saveApiKeyEffect st localStorage = localStorage) as ->
      by (unfold saveApiKeyEffect; by rewrite Hkey).
    split; [done | apply startup_apiKey].
Qed.

(** X22: the key a session starts with is the stored key alone: without
    a stored key the session starts without key and with the key prompt
    open, also when the build environment provides one. *)
Theorem startup_key_comes_from_storage env params localStorage parse :
  (localStorage !! "gemini-api-key" = None →
   apiKey (startup env params localStorage parse) = "" ∧
   showApiKeyInput (startup env params localStorage parse) = true) ∧
  (∀ k, localStorage !! "gemini-api-key" = Some k → k ≠ "" →
        apiKey (startup env params localStorage parse) = k ∧
        showApiKeyInput (startup env params localStorage parse) = false).
Proof.
  destruct (startup_apiKey env params localStorage parse) as [-> ->]. split.
  - by intros ->.
  - intros k -> Hk%nonempty_truthy. simpl. unfold or_else. rewrite Hk. by rewrite Hk.
Qed.

(** X23: a history saved by the history effect is the history of the next
    session when [JSON.parse] gives back what [JSON.stringify] was given;
    a stored text that does not parse, or no stored text, gives the empty
    history. *)
Theorem history_persists env params localStorage parse stringify st :
  (stringify (recentTranslations st) ≠ "" →
   parse (stringify (recentTranslations st)) = Some (recentTranslations st) →
   recentTranslations
     (startup env params (saveHistoryEffect stringify st localStorage) parse) =
     recentTranslations st) ∧
  (∀ saved, localStorage !! "translation-history" = Some saved → parse saved = None →
            recentTranslations (startup env params localStorage parse) = []) ∧
  (localStorage !! "translation-history" = None →
   recentTranslations (startup env params localStorage parse) = []).
Proof.
  split; [|split].
  - intros Hne%nonempty_truthy Hparse. rewrite startup_history.
    unfold saveHistoryEffect. by rewrite lookup_insert_eq, Hne, Hparse.
  - intros saved Hsaved Hparse. rewrite startup_history, Hsaved, Hparse.
    by destruct (JSString.truthy saved).
  - intros Hnone. by rewrite startup_history, Hnone.
Qed.

End Storage.

Section StorageExamples.
Import JS Adapter Session Effects Samples MoreSamples.

Lemma api_key_persists_witness :
  apiKey (startup None [] (saveApiKeyEffect autoSession ∅) (λ _, None)) = "key".
Proof.
  by apply (proj1 (api_key_persists None [] ∅ (λ _, None) autoSession)).
Defined.

Lemma startup_key_comes_from_storage_witness :
  apiKey (startup (Some "build-key") [] ∅ (λ _, None)) = "" ∧
  showApiKeyInput (startup (Some "build-key") [] ∅ (λ _, None)) = true.
Proof.
  by apply (proj1 (startup_key_comes_from_storage (Some "build-key") [] ∅ (λ _, None))).
Defined.

Lemma history_persists_witness :
  recentTranslations (startup None [] {["translation-history" := "{not json"]} (λ _, None)) = [].
Proof.
  by apply (proj1 (proj2 (history_persists None []
                            {["translation-history" := "{not json"]}
                            (λ _, None) (λ _, "[]") autoSession))
             "{not json").
Defined.

End StorageExamples.

(** ** Eviction, and keys of white space *)

Section Edges.
Import JS Adapter Session Effects Samples MoreSamples.
Context {R : Runtime}.


(** X25: a key of white space only is refused by [saveApiKey], which
    leaves the state as it is, and accepted by [handleTranslate], which
    sends the request with it. *)
Theorem blank_key_is_sent env fetch now st :
  apiKey st ≠ "" → trim (apiKey st) = "" → trim (sourceText st) ≠ "" →
  saveApiKey st = st ∧
  snd (handleTranslate env fetch now st) =
    [request env (sourceText st) (sourceLang st) (targetLang st) (apiKey st)] ∧
  url (request env (sourceText st) (sourceLang st) (targetLang st) (apiKey st)) =
    endpoint +:+ apiKey st.
Proof.
  intros Hkey Hblank Htext. split; [|split].
  - unfold saveApiKey. by rewrite Hblank.
  - rewrite handleTranslate_pending by done.
    by rewrite handleTranslate_settle_requests.
  - unfold request, key_parameter. simpl. apply nonempty_truthy in Hkey.
    by rewrite Hkey.
Qed.

End Edges.

Section EdgesExamples.
Import JS Adapter Session Effects Samples MoreSamples.


Lemma blank_key_is_sent_witness :
  snd (handleTranslate None (answers Null) 0 (setApiKey " " autoSession)) =
    [request None "  good morning " "auto" "de" " "].
Proof.
  by apply (blank_key_is_sent None (answers Null) 0 (setApiKey " " autoSession)).
Defined.

End EdgesExamples.
